(** * Stripe payment-failure monitor (src/index.js): a shallow embedding

    The program is one Node/Express file.  Its core is
      - [addLog]              the bounded activity log (lines 9-14),
      - [sendEmail]           the Gmail notifier with its own logging (28-56),
      - [formatFailureEmail]  the renderer for the two monitored events (58-103),
      - the POST /webhook handler (139-163);
    around it, the routes GET /, GET /health, GET /logs and POST /test
    (105-136, 165-192) and the callback that logs the start (194-197).

    How the program is embedded:
      - a JavaScript value is a term of the inductive type [JS.value]: the
        JSON data model plus [undefined];
      - a number is an IEEE-754 binary64 ([PrimFloat.float]), which is the
        ECMAScript Number type, so [amount / 100] is the double division and
        [toFixed] rounds the real number that double denotes;
      - a string is a byte string, the UTF-8 encoding of the text;
      - the conversions [ToString] and [ToNumber] can throw: an object with
        an own property [toString] (which [JSON.parse] produces from
        [{"toString": 1}]) has no primitive value, and every template
        literal, [+], [/], [*] and [join] that meets one raises a TypeError;
      - exceptions and the mutable state of the process (the log, the
        console, the clock, the calls made to the Gmail API) go through a
        state-and-exception monad [M], whose third outcome, [Pending], is
        that of a handler suspended at an [await] that never settles;
      - what the program takes from its environment is a parameter: the
        record [JS.Host] (wall clock, date formatting, the general
        number/string conversions of ECMAScript, the case mapping of
        non-ASCII text) and the record [Gmail] (what the API does with
        each call: accept it, reject it, or never answer).
    A request handler is modelled run up to its response or to the [await]
    it stays suspended at; how the handlers of several requests interleave at
    their [await] points is not modelled. *)

From Stdlib Require Import ZArith NArith List String Ascii Lia Bool QArith Qround.
From Stdlib Require Import Floats Uint63 DecimalString.
Import ListNotations.

#[local] Set Warnings "-register-all,-inexact-float".
Local Open Scope string_scope.

(* ================================================================== *)
(** ** Strings *)

Module Str.

(** The line feed and the double quote, which the templates contain. *)
Definition nl : string := String "010"%char EmptyString.
Definition dq : string := String "034"%char EmptyString.

(** [contains s t]: [t] occurs in [s] as a contiguous substring. *)
Definition contains (s t : string) : Prop :=
  exists pre post, s = pre ++ t ++ post.

(** The executable counterpart of [contains]. *)
Fixpoint isInfix (t s : string) : bool :=
  String.prefix t s
  || match s with
     | EmptyString => false
     | String _ s' => isInfix t s'
     end.

(** A string of ASCII characters: every byte is below 128. *)
Fixpoint is_ascii (s : string) : bool :=
  match s with
  | EmptyString => true
  | String c s' => (nat_of_ascii c <? 128)%nat && is_ascii s'
  end.

(** [String.prototype.toUpperCase] on a string of ASCII characters: the
    letters a-z become A-Z and every other character stays.  (On other
    text the case mapping is that of Unicode, which [JS.String_toUpperCase]
    takes from the host.) *)
Definition upper_char (c : ascii) : ascii :=
  let n := nat_of_ascii c in
  if ((97 <=? n) && (n <=? 122))%nat then ascii_of_nat (n - 32) else c.

Fixpoint toUpperCase (s : string) : string :=
  match s with
  | EmptyString => EmptyString
  | String c s' => String (upper_char c) (toUpperCase s')
  end.

(** [a.replace(/x/g, y)] for single characters [x], [y]. *)
Fixpoint replace_char (x y : ascii) (s : string) : string :=
  match s with
  | EmptyString => EmptyString
  | String c s' =>
      String (if Ascii.eqb c x then y else c) (replace_char x y s')
  end.

(** [a.replace(/=+$/, '')]: drop the trailing run of equal signs. *)
Fixpoint strip_trailing_eq (s : string) : string :=
  match s with
  | EmptyString => EmptyString
  | String c s' =>
      match strip_trailing_eq s' with
      | EmptyString => if Ascii.eqb c "="%char then EmptyString
                       else String c EmptyString
      | r => String c r
      end
  end.


End Str.

(* ================================================================== *)
(** ** Exceptions and results *)

(** A thrown JavaScript error.  The program reads nothing of an error but
    its [message] (lines 53, 151, 160, 189). *)
Record Error := mkError { message : string }.

Inductive Result (A : Type) : Type :=
| Ret (a : A)
| Throw (e : Error).
Arguments Ret {A} a.
Arguments Throw {A} e.

(* ================================================================== *)
(** ** JavaScript values, numbers and dates *)

Module JS.

(** The values [JSON.parse] produces (what [express.json()] hands to the
    handler as [req.body]), and [undefined], which reading a missing
    property yields.  An object lists its own properties, each key once. *)
Inductive value : Type :=
| VUndefined
| VNull
| VBool (b : bool)
| VNum (x : float)
| VStr (s : string)
| VArr (items : list value)
| VObj (fields : list (string * value)).

(** What the program takes from its host and this development leaves
    abstract:
    - [NumberToString_host]: ECMAScript [Number::toString] on the finite
      numbers that are not integers of magnitude at most 2^53 (shortest
      round-trip digits);
    - [StringToNumber]: ECMAScript [StringToNumber];
    - [toUpperCase_host]: [String.prototype.toUpperCase] on a string that
      has a character outside ASCII (the case mapping of Unicode, under
      which the upper case of "ñß" is "ÑSS");
    - [Date_now k]: the time value, in milliseconds since the epoch, of the
      [k]-th [new Date()] the process evaluates;
    - [toISOString], [toLocaleString]: [Date.prototype.toISOString] and
      [Date.prototype.toLocaleString] on a valid time value (the latter
      depends on the locale and time zone of the process). *)
Record Host := mkHost {
  NumberToString_host : float -> string;
  StringToNumber : string -> float;
  toUpperCase_host : string -> string;
  Date_now : nat -> Z;
  toISOString : Z -> string;
  toLocaleString : Z -> string
}.

(** *** Numbers *)

(** The real number a finite double denotes; [None] for NaN and the
    infinities. *)
Definition real (x : float) : option Q :=
  match Prim2SF x with
  | S754_zero _ => Some 0%Q
  | S754_finite s m e =>
      Some ((if s then -1 else 1) * inject_Z (Z.pos m) * 2 ^ e)%Q
  | S754_infinity _ | S754_nan => None
  end.

Definition Qltb (a b : Q) : bool := negb (Qle_bool b a).

Definition Qabs' (r : Q) : Q := if Qltb r 0 then (- r)%Q else r.

(** The decimal digits of a natural number, without leading zeros. *)
Definition decimal (n : Z) : string :=
  NilZero.string_of_uint (N.to_uint (Z.to_N n)).

Fixpoint zeros (n : nat) : string :=
  match n with
  | O => EmptyString
  | S n' => String "0"%char (zeros n')
  end.

Fixpoint take (n : nat) (s : string) : string :=
  match n, s with
  | S n', String c s' => String c (take n' s')
  | _, _ => EmptyString
  end.

Fixpoint drop (n : nat) (s : string) : string :=
  match n, s with
  | S n', String _ s' => drop n' s'
  | _, _ => s
  end.

(** [Number::toString(x)] (radix 10).  An integer of magnitude at most 2^53
    prints as its decimal digits; other finite numbers go to the host. *)
Definition NumberToString (h : Host) (x : float) : string :=
  if PrimFloat.is_nan x then "NaN"
  else
    match real x with
    | None => if PrimFloat.ltb x 0 then "-Infinity" else "Infinity"
    | Some r =>
        if Qeq_bool (inject_Z (Qfloor r)) r
           && Qle_bool (Qabs' r) (inject_Z (2 ^ 53))
        then (if Qltb r 0 then "-" else EmptyString)
             ++ decimal (Qfloor (Qabs' r))
        else NumberToString_host h x
    end.

(** [Number.prototype.toFixed(fractionDigits)], step by step as in
    ECMA-262 (21.1.3.3):
    - a number that is not finite prints as [Number::toString] does;
    - the sign is taken off first ([s]), so a small negative number prints
      as [-0.00];
    - at or above 10^21 the magnitude prints as [Number::toString] does;
    - otherwise [n] is the integer closest to [x * 10^f], the larger one of
      two equally close; its digits are padded with zeros to [f + 1]
      characters and the point goes before the last [f]. *)
Definition toFixed (h : Host) (fractionDigits : nat) (x : float) : string :=
  match real x with
  | None => NumberToString h x
  | Some r =>
      let s := if Qltb r 0 then "-" else EmptyString in
      let r := Qabs' r in
      if Qle_bool (inject_Z (10 ^ 21)) r
      then s ++ NumberToString h (PrimFloat.abs x)
      else
        let f := fractionDigits in
        let n := Qfloor (r * inject_Z (10 ^ Z.of_nat f) + (1 # 2))%Q in
        let m := decimal n in
        let m := if (String.length m <=? f)%nat
                 then zeros (f + 1 - String.length m) ++ m else m in
        let k := String.length m in
        s ++ (if (f =? 0)%nat then m
              else take (k - f) m ++ "." ++ drop (k - f) m)
  end.

(** *** Conversions *)

(** [ToBoolean]: the falsy values are [undefined], [null], [false], [0],
    [-0], [NaN] and the empty string. *)
Definition ToBoolean (v : value) : bool :=
  match v with
  | VUndefined | VNull => false
  | VBool b => b
  | VNum x => negb (PrimFloat.is_nan x || PrimFloat.is_zero x)
  | VStr s => negb (String.eqb s EmptyString)
  | VArr _ | VObj _ => true
  end.

(** The TypeError of [OrdinaryToPrimitive] on an object neither of whose
    [toString] and [valueOf] yields a primitive value (V8's wording). *)
Definition TypeError_convert : Error :=
  mkError "Cannot convert object to primitive value".

(** [k] is the name of an own property of the object with these fields. *)
Definition has_own (k : string) (fields : list (string * value)) : bool :=
  existsb (fun kv => String.eqb (fst kv) k) fields.

(** [ToString], as a template literal, [+] with a string and [join] apply
    it.
    - An object goes through [OrdinaryToPrimitive], which calls its
      [toString] when that is callable and its [valueOf] otherwise.  With no
      own [toString] the inherited [Object.prototype.toString] answers
      [[object Object]].  An own [toString] of a parsed object is a JSON
      value, never callable, and shadows the inherited one; [valueOf], own
      or inherited, yields no primitive value either, so the conversion
      throws a TypeError.
    - An array has no own [toString]; the inherited one joins the elements
      with commas, [null] and [undefined] as the empty string and any other
      element through [ToString], from left to right: the first element
      that cannot be converted throws. *)
Fixpoint ToString (h : Host) (v : value) : Result string :=
  match v with
  | VUndefined => Ret "undefined"
  | VNull => Ret "null"
  | VBool true => Ret "true"
  | VBool false => Ret "false"
  | VNum x => Ret (NumberToString h x)
  | VStr s => Ret s
  | VArr items =>
      (fix join (items : list value) : Result string :=
         match items with
         | [] => Ret EmptyString
         | x :: rest =>
             match (match x with
                    | VUndefined | VNull => Ret EmptyString
                    | _ => ToString h x
                    end) with
             | Throw e => Throw e
             | Ret s =>
                 match rest with
                 | [] => Ret s
                 | _ :: _ =>
                     match join rest with
                     | Throw e => Throw e
                     | Ret r => Ret (s ++ "," ++ r)
                     end
                 end
             end
         end) items
  | VObj fields =>
      if has_own "toString" fields then Throw TypeError_convert
      else Ret "[object Object]"
  end.

(** [ToNumber], as [/] and [*] apply it to an operand.  An object or an
    array is first converted to a primitive value, which for the values at
    hand is the string [ToString] yields, or the same TypeError. *)
Definition ToNumber (h : Host) (v : value) : Result float :=
  match v with
  | VUndefined => Ret PrimFloat.nan
  | VNull => Ret 0%float
  | VBool true => Ret 1%float
  | VBool false => Ret 0%float
  | VNum x => Ret x
  | VStr s => Ret (StringToNumber h s)
  | VArr _ | VObj _ =>
      match ToString h v with
      | Ret s => Ret (StringToNumber h s)
      | Throw e => Throw e
      end
  end.

(** [a || b] *)
Definition or_else (a b : value) : value := if ToBoolean a then a else b.

(** [v === 'literal'] *)
Definition strict_eq_string (v : value) (lit : string) : bool :=
  match v with
  | VStr s => String.eqb s lit
  | _ => false
  end.

(** *** Property access *)

Fixpoint lookup (k : string) (fields : list (string * value)) : value :=
  match fields with
  | [] => VUndefined
  | (k', v) :: rest => if String.eqb k' k then v else lookup k rest
  end.

Definition nullish (v : value) : bool :=
  match v with
  | VUndefined | VNull => true
  | _ => false
  end.

(** The TypeError of reading property [k] of [undefined] or [null]
    (V8's wording; nothing below depends on the text). *)
Definition TypeError_read (v : value) (k : string) : Error :=
  mkError ("Cannot read properties of "
           ++ (match v with VNull => "null" | _ => "undefined" end)
           ++ " (reading '" ++ k ++ "')").

(** [o.k] for the property names this program reads ([type], [data],
    [object], [customer], [amount], ...): an own property of an object,
    [undefined] on every other value that has properties, a TypeError on
    [undefined] and [null]. *)
Definition get (o : value) (k : string) : Result value :=
  match o with
  | VUndefined | VNull => Throw (TypeError_read o k)
  | VObj fields => Ret (lookup k fields)
  | VBool _ | VNum _ | VStr _ | VArr _ => Ret VUndefined
  end.

(** [String.prototype.toUpperCase]. *)
Definition String_toUpperCase (h : Host) (s : string) : string :=
  if Str.is_ascii s then Str.toUpperCase s else toUpperCase_host h s.

(** [expr.toUpperCase()], where [what] is the source text of [expr]: only
    a string has the method. *)
Definition call_toUpperCase (h : Host) (what : string) (v : value)
  : Result string :=
  match v with
  | VStr s => Ret (String_toUpperCase h s)
  | VUndefined | VNull => Throw (TypeError_read v "toUpperCase")
  | _ => Throw (mkError (what ++ ".toUpperCase is not a function"))
  end.

(** *** Dates *)

(** The time value of a Date object: milliseconds since the epoch, or
    [None] for an invalid date (time value NaN). *)
Definition Date := option Z.

(** [new Date(tv)] for a number [tv]: [TimeClip]. *)
Definition newDate (tv : float) : Date :=
  match real tv with
  | None => None
  | Some r =>
      if Qltb (inject_Z 8640000000000000) (Qabs' r) then None
      else Some (if Qltb r 0 then Qceiling r else Qfloor r)
  end.

Definition Date_toLocaleString (h : Host) (d : Date) : string :=
  match d with
  | None => "Invalid Date"
  | Some t => toLocaleString h t
  end.

End JS.

Import JS.

(* ================================================================== *)
(** ** Process state and the effect monad *)

(** An entry of the activity log (line 11). *)
Record LogEntry := mkLogEntry { timestamp : string; entry_message : string }.

(** The mutable state a request handler can touch:
    - [logs]: the module-level array [logs] (line 9);
    - [console]: the lines written with [console.log];
    - [dates]: how many times [new Date()] has been evaluated, which indexes
      the host clock;
    - [sent]: the [raw] payloads handed to [gmail.users.messages.send], one
      per call, oldest first. *)
Record World := mkWorld {
  logs : list LogEntry;
  console : list string;
  dates : nat;
  sent : list string
}.

Definition empty_world : World := mkWorld [] [] 0 [].

(** What the promise of a call of the Gmail API does: it resolves, it
    rejects with an error, or it never settles (the program sets no
    timeout). *)
Inductive Answer : Type :=
| Accepts
| Rejects (e : Error)
| NeverSettles.

(** The Gmail API as the program sees it: the answer to the [k]-th call of
    [gmail.users.messages.send], made with payload [raw]. *)
Record Gmail := mkGmail { messages_send : nat -> string -> Answer }.

(** How far a handler gets: it returns a value, it throws, or it stays
    suspended at an [await] whose promise never settles. *)
Inductive Outcome (A : Type) : Type :=
| Returns (a : A)
| Throws (e : Error)
| Pending.
Arguments Returns {A} a.
Arguments Throws {A} e.
Arguments Pending {A}.

(** Computations that read and write the [World]. *)
Definition M (A : Type) : Type := World -> World * Outcome A.

Definition ret {A} (a : A) : M A := fun w => (w, Returns a).

Definition throw {A} (e : Error) : M A := fun w => (w, Throws e).

Definition bind {A B} (c : M A) (k : A -> M B) : M B :=
  fun w =>
    match c w with
    | (w', Returns a) => k a w'
    | (w', Throws e) => (w', Throws e)
    | (w', Pending) => (w', Pending)
    end.

(** [try { c } catch (error) { handler error }]: a suspended [c] has thrown
    nothing, so there is nothing to catch. *)
Definition try_catch {A} (c : M A) (handler : Error -> M A) : M A :=
  fun w =>
    match c w with
    | (w', Returns a) => (w', Returns a)
    | (w', Throws e) => handler e w'
    | (w', Pending) => (w', Pending)
    end.

(** A pure, possibly throwing expression evaluated inside a handler. *)
Definition lift {A} (r : Result A) : M A :=
  fun w =>
    match r with
    | Ret a => (w, Returns a)
    | Throw e => (w, Throws e)
    end.

Declare Scope js_scope.
Delimit Scope js_scope with js.
Notation "x <- c ;; k" := (bind c (fun x => k))
  (at level 61, c at next level, right associativity) : js_scope.
Notation "c ;; k" := (bind c (fun _ => k))
  (at level 61, right associativity) : js_scope.
Local Open Scope js_scope.

(** Sequencing of pure throwing expressions. *)
Definition bindR {A B} (r : Result A) (k : A -> Result B) : Result B :=
  match r with
  | Ret a => k a
  | Throw e => Throw e
  end.
Notation "'let?' x := r 'in' k" := (bindR r (fun x => k))
  (at level 10, x name, r at level 100, k at level 200) : js_scope.

(* ================================================================== *)
(** ** The activity log (lines 8-14) *)

(** [new Date()]: the next reading of the host clock. *)
Definition new_Date (h : Host) : M Z :=
  fun w => (mkWorld (logs w) (console w) (S (dates w)) (sent w),
            Returns (Date_now h (dates w))).

(** [logs.push(e)] *)
Definition logs_push (e : LogEntry) : M unit :=
  fun w => (mkWorld (logs w ++ [e])%list (console w) (dates w) (sent w), Returns tt).

(** [logs.shift()]: remove the first element (nothing on an empty array). *)
Definition logs_shift : M unit :=
  fun w => (mkWorld (tl (logs w)) (console w) (dates w) (sent w), Returns tt).

(** [logs.length] *)
Definition logs_length : M nat := fun w => (w, Returns (List.length (logs w))).

Definition console_log (line : string) : M unit :=
  fun w => (mkWorld (logs w) (console w ++ [line])%list (dates w) (sent w), Returns tt).

Definition addLog (h : Host) (message : string) : M unit :=
  now <- new_Date h ;;
  logs_push (mkLogEntry (toISOString h now) message) ;;
  n <- logs_length ;;
  (if (100 <? n)%nat then logs_shift else ret tt) ;;   (* Keep last 100 logs *)
  now' <- new_Date h ;;
  console_log ("[" ++ toISOString h now' ++ "] " ++ message).

(** [a.slice(-n)] for a positive [n]: the last [n] elements, all of them
    when there are fewer (line 133 has [logs.slice(-20)]). *)
Definition slice_last {A} (n : nat) (a : list A) : list A :=
  skipn (List.length a - n) a.

(** What GET /logs answers (lines 131-136): the last 20 entries and the
    total, and the count GET /health reports (line 127). *)
Definition logs_route (w : World) : list LogEntry * nat :=
  (slice_last 20 (logs w), List.length (logs w)).

(** The messages of the log, oldest first. *)
Definition messages (w : World) : list string := map entry_message (logs w).

(** The world after a sequence of [addLog] calls. *)
Definition appends (h : Host) (w : World) (msgs : list string) : World :=
  fold_left (fun w m => fst (addLog h m w)) msgs w.

(* ================================================================== *)
(** ** The notifier (lines 16-56) *)

Module Base64.

Definition alphabet : string :=
  "ABCDEFGHIJKLMNOPQRSTUVWXYZabcdefghijklmnopqrstuvwxyz0123456789+/".

Definition digit (n : N) : ascii :=
  match String.get (N.to_nat n) alphabet with
  | Some c => c
  | None => "="%char
  end.

Definition pad : ascii := "="%char.

(** [Buffer.from(s).toString('base64')] on the bytes of [s]. *)
Fixpoint encode (s : string) : string :=
  match s with
  | EmptyString => EmptyString
  | String a EmptyString =>
      let n := (N_of_ascii a * 65536)%N in
      String (digit (n / 262144))
        (String (digit ((n / 4096) mod 64))
           (String pad (String pad EmptyString)))
  | String a (String b EmptyString) =>
      let n := (N_of_ascii a * 65536 + N_of_ascii b * 256)%N in
      String (digit (n / 262144))
        (String (digit ((n / 4096) mod 64))
           (String (digit ((n / 64) mod 64)) (String pad EmptyString)))
  | String a (String b (String c rest)) =>
      let n := (N_of_ascii a * 65536 + N_of_ascii b * 256 + N_of_ascii c)%N in
      String (digit (n / 262144))
        (String (digit ((n / 4096) mod 64))
           (String (digit ((n / 64) mod 64))
              (String (digit (n mod 64)) (encode rest))))
  end.

End Base64.

(** An element of an array as [join] prints it. *)
Definition join_element (h : Host) (x : value) : Result string :=
  match x with
  | VUndefined | VNull => Ret EmptyString
  | _ => ToString h x
  end.

(** [items.join(sep)]: the elements from left to right, [undefined] and
    [null] as the empty string, any other through [ToString]. *)
Fixpoint Array_join (h : Host) (sep : string) (items : list value)
  : Result string :=
  match items with
  | [] => Ret EmptyString
  | x :: rest =>
      let? s := join_element h x in
      match rest with
      | [] => Ret s
      | _ :: _ => let? r := Array_join h sep rest in Ret (s ++ sep ++ r)
      end
  end.

(** [getGmailAuth] (lines 19-26) builds an OAuth2 client from two environment
    variables, which line 31 stores in the options of the API client; it
    performs no request and is modelled as succeeding. *)
Definition getGmailAuth : M unit := ret tt.

(** [await gmail.users.messages.send({userId: 'me', requestBody: {raw}})]:
    the call is made, and what comes back is up to the API. *)
Definition gmail_users_messages_send (g : Gmail) (raw : string) : M unit :=
  fun w =>
    let w' := mkWorld (logs w) (console w) (dates w) (sent w ++ [raw])%list in
    match messages_send g (List.length (sent w)) raw with
    | Accepts => (w', Returns tt)
    | Rejects e => (w', Throws e)
    | NeverSettles => (w', Pending)
    end.

(** The constant [message] of [sendEmail] (lines 33-39), as a function of
    the two arguments: the array literal is built first, which converts
    [subject] for the concatenation of line 35, and [join] then converts
    [body]. *)
Definition email_message (h : Host) (subject body : value) : Result string :=
  let? subject_text := ToString h subject in
  Array_join h Str.nl
    [ VStr "To: blakeecom02@gmail.com";
      VStr ("Subject: " ++ subject_text);
      VStr "Content-Type: text/html; charset=utf-8";
      VStr EmptyString;
      body ].

(** The constant [encodedMessage] (line 41), as a function of [message]. *)
Definition encodedMessage (message : string) : string :=
  Str.strip_trailing_eq
    (Str.replace_char "/" "_"
       (Str.replace_char "+" "-" (Base64.encode message))).

Definition sendEmail (h : Host) (g : Gmail) (subject body : value) : M bool :=
  try_catch
    (getGmailAuth ;;
     message <- lift (email_message h subject body) ;;
     gmail_users_messages_send g (encodedMessage message) ;;
     addLog h "Email sent successfully to blakeecom02@gmail.com" ;;
     ret true)
    (fun error =>
       addLog h ("Failed to send email: " ++ message error) ;;
       throw error).

(* ================================================================== *)
(** ** The renderer (lines 58-103) *)

(** The object [{ subject, body }] that [formatFailureEmail] returns; each
    field is a string, or [undefined] when no branch assigned it. *)
Record NotificationContent := mkContent { subject : value; body : value }.

(** What the renderer returns for an event type it does not know: both
    variables are still unassigned at line 102. *)
Definition NotApplicable : NotificationContent := mkContent VUndefined VUndefined.

(** The TypeError of [const { type, data } = event] on [undefined] or [null]
    (V8's wording). *)
Definition TypeError_destructure (v : value) : Error :=
  mkError ("Cannot destructure property 'type' of 'event' as it is "
           ++ (match v with VNull => "null" | _ => "undefined" end) ++ ".").

(** A template literal that spans several source lines, as the list of its
    lines. *)
Definition template (lines : list string) : string := String.concat Str.nl lines.

(** The substitutions of a template literal are evaluated and converted to
    strings one after the other, so the bindings below follow the order of
    the source: the first that throws ends the rendering. *)
Definition formatFailureEmail (h : Host) (event : value)
  : Result NotificationContent :=
  if nullish event then Throw (TypeError_destructure event) else
  let? type := get event "type" in
  let? data := get event "data" in
  if strict_eq_string type "charge.failed" then
    let? charge := get data "object" in
    let? customer := get charge "customer" in
    let? charge_amount := get charge "amount" in
    let? dividend := ToNumber h charge_amount in
    let amount := toFixed h 2 (dividend / 100)%float in
    let? charge_currency := get charge "currency" in
    let? currency := call_toUpperCase h "charge.currency" charge_currency in
    let subject := "💳 Payment Failure Alert - $" ++ amount ++ " " ++ currency in
    let? customer_text := ToString h (or_else customer (VStr "Guest")) in
    let? failure_code := get charge "failure_code" in
    let? failure_code_text :=
      ToString h (or_else failure_code (VStr "Unknown")) in
    let? failure_message := get charge "failure_message" in
    let? failure_message_text :=
      ToString h (or_else failure_message (VStr "No details provided")) in
    let? id := get charge "id" in
    let? id_text := ToString h id in
    let? created := get charge "created" in
    let? seconds := ToNumber h created in
    let time := Date_toLocaleString h (newDate (seconds * 1000)%float) in
    let? link_id := get charge "id" in
    let? link_id_text := ToString h link_id in
    let body := template
      [ EmptyString;
        "      <h2>🚨 Charge Failed</h2>";
        "      <p><strong>Amount:</strong> $" ++ amount ++ " " ++ currency ++ "</p>";
        "      <p><strong>Customer ID:</strong> " ++ customer_text ++ "</p>";
        "      <p><strong>Failure Code:</strong> " ++ failure_code_text ++ "</p>";
        "      <p><strong>Failure Message:</strong> " ++ failure_message_text
          ++ "</p>";
        "      <p><strong>Charge ID:</strong> " ++ id_text ++ "</p>";
        "      <p><strong>Time:</strong> " ++ time ++ "</p>";
        "      ";
        "      <hr>";
        "      <p><small>View in Stripe Dashboard: <a href=" ++ Str.dq
          ++ "https://dashboard.stripe.com/payments/" ++ link_id_text ++ Str.dq
          ++ ">Open Charge</a></small></p>";
        "    " ] in
    Ret (mkContent (VStr subject) (VStr body))
  else if strict_eq_string type "invoice.payment_failed" then
    let? invoice := get data "object" in
    let? customer := get invoice "customer" in
    let? amount_due := get invoice "amount_due" in
    let? dividend := ToNumber h amount_due in
    let amount := toFixed h 2 (dividend / 100)%float in
    let? invoice_currency := get invoice "currency" in
    let? currency := call_toUpperCase h "invoice.currency" invoice_currency in
    let subject :=
      "📋 Subscription Payment Failure - $" ++ amount ++ " " ++ currency in
    let? customer_text := ToString h customer in
    let? number := get invoice "number" in
    let? number_text := ToString h (or_else number (VStr "Draft")) in
    let? subscription := get invoice "subscription" in
    let? subscription_text := ToString h (or_else subscription (VStr "N/A")) in
    let? attempt_count := get invoice "attempt_count" in
    let? attempt_count_text := ToString h attempt_count in
    let? next_payment_attempt := get invoice "next_payment_attempt" in
    let? next_attempt :=
      if ToBoolean next_payment_attempt
      then let? seconds := ToNumber h next_payment_attempt in
           Ret (Date_toLocaleString h (newDate (seconds * 1000)%float))
      else Ret "No retry scheduled" in
    let? id := get invoice "id" in
    let? id_text := ToString h id in
    let body := template
      [ EmptyString;
        "      <h2>🚨 Invoice Payment Failed</h2>";
        "      <p><strong>Amount:</strong> $" ++ amount ++ " " ++ currency ++ "</p>";
        "      <p><strong>Customer ID:</strong> " ++ customer_text ++ "</p>";
        "      <p><strong>Invoice Number:</strong> " ++ number_text ++ "</p>";
        "      <p><strong>Subscription ID:</strong> " ++ subscription_text
          ++ "</p>";
        "      <p><strong>Attempt Count:</strong> " ++ attempt_count_text
          ++ "</p>";
        "      <p><strong>Next Attempt:</strong> " ++ next_attempt ++ "</p>";
        "      ";
        "      <hr>";
        "      <p><small>View in Stripe Dashboard: <a href=" ++ Str.dq
          ++ "https://dashboard.stripe.com/invoices/" ++ id_text ++ Str.dq
          ++ ">Open Invoice</a></small></p>";
        "    " ] in
    Ret (mkContent (VStr subject) (VStr body))
  else Ret NotApplicable.

(** Rendering as a step of a handler: it runs in the process but, being the
    pure expression above, neither reads nor writes the [World]. *)
Definition render (h : Host) (event : value) : M NotificationContent :=
  lift (formatFailureEmail h event).

(* ================================================================== *)
(** ** The webhook handler (lines 138-163) *)

(** How the handling of one event ends, one constructor per exit of the
    handler: the fall-through after a sent notification (line 158 reached
    from line 149), the fall-through after the [else] branch (line 158
    reached from line 155), the inner [catch] (lines 150-153) and the outer
    [catch] (lines 159-162).  The two [catch] exits carry
    [error.message]. *)
Inductive ProcessingResult : Type :=
| Processed
| Ignored
| Failed (detail : string)
| WebhookError (detail : string).

(** The response of the handler: [res.status(status).json(body)]. *)
Record Response := mkResponse {
  status : nat;
  json : list (string * value)
}.

(** [event.type], read anew wherever the source reads it. *)
Definition event_type (event : value) : M value := lift (get event "type").

(** [${event.type}] in a template literal: the read, then [ToString]. *)
Definition event_type_text (h : Host) (event : value) : M string :=
  type <- event_type event ;;
  lift (ToString h type).

(** The body of the handler up to its response.  [event] is [req.body]. *)
Definition handle (h : Host) (g : Gmail) (event : value) : M ProcessingResult :=
  try_catch
    (type <- event_type_text h event ;;
     addLog h ("Received webhook: " ++ type) ;;
     (* Handle payment failure events *)
     type1 <- event_type event ;;
     type2 <- event_type event ;;
     if strict_eq_string type1 "charge.failed"
        || strict_eq_string type2 "invoice.payment_failed"
     then
       try_catch
         (content <- render h event ;;
          sendEmail h g (subject content) (body content) ;;
          type <- event_type_text h event ;;
          addLog h ("Payment failure notification sent for event: " ++ type) ;;
          ret Processed)
         (fun error =>
            type <- event_type_text h event ;;
            addLog h ("Failed to send notification for " ++ type
                      ++ ": " ++ message error) ;;
            ret (Failed (message error)))
     else
       (type <- event_type_text h event ;;
        addLog h ("Ignored webhook event: " ++ type) ;;
        ret Ignored))
    (fun error =>
       addLog h ("Webhook error: " ++ message error) ;;
       ret (WebhookError (message error))).

(** The response each exit sends (lines 152, 158, 161). *)
Definition respond (r : ProcessingResult) : Response :=
  match r with
  | Processed | Ignored =>
      mkResponse 200 [("received", VBool true); ("processed", VBool true)]
  | Failed _ =>
      mkResponse 500 [("error", VStr "Failed to send notification")]
  | WebhookError detail =>
      mkResponse 500 [("error", VStr detail)]
  end.

(** [app.post('/webhook', ...)].  [req_body] is what [express.json()] left
    in [req.body]: the parsed body of a JSON request, which is an object or
    an array (the parser answers 400 to any other JSON text, and the
    handler does not run). *)
Definition webhook (h : Host) (g : Gmail) (req_body : value) : M Response :=
  r <- handle h g req_body ;;
  ret (respond r).

(** [app.post('/test', ...)] (lines 165-192). *)
Definition test (h : Host) (g : Gmail) : M Response :=
  try_catch
    (addLog h "Manual test triggered" ;;
     (* Send test notification *)
     let testSubject := "🧪 Test: Stripe Payment Failure Monitor" in
     now <- new_Date h ;;
     let testBody := template
       [ EmptyString;
         "      <h2>✅ Test Notification</h2>";
         "      <p>This is a test notification from your Stripe Payment Failure Monitor.</p>";
         "      <p><strong>Service:</strong> Running properly</p>";
         "      <p><strong>Monitoring:</strong> charge.failed, invoice.payment_failed</p>";
         "      <p><strong>Email:</strong> blakeecom02@gmail.com</p>";
         "      <p><strong>Time:</strong> " ++ toLocaleString h now ++ "</p>";
         "    " ] in
     sendEmail h g (VStr testSubject) (VStr testBody) ;;
     ret (mkResponse 200
            [ ("success", VBool true);
              ("message", VStr "Test notification sent successfully");
              ("email", VStr "blakeecom02@gmail.com") ]))
    (fun error =>
       addLog h ("Test failed: " ++ message error) ;;
       ret (mkResponse 500 [("error", VStr (message error))])).

(* ================================================================== *)
(** ** The other routes and the start of the process *)

(** A natural number as a JavaScript number (array lengths are below 2^53,
    where the conversion is exact). *)
Definition number_of_nat (n : nat) : float :=
  PrimFloat.of_uint63 (Uint63.of_Z (Z.of_nat n)).

(** [app.get('/', ...)] (lines 106-120). *)
Definition root : Response :=
  mkResponse 200
    [ ("service", VStr "Stripe Payment Failure Monitor");
      ("status", VStr "running");
      ("endpoints",
       VObj [ ("GET /", VStr "Service info");
              ("GET /health", VStr "Health check");
              ("GET /logs", VStr "View recent activity logs");
              ("POST /webhook", VStr "Stripe webhook endpoint");
              ("POST /test", VStr "Test notification") ]);
      ("monitoring", VArr [VStr "charge.failed"; VStr "invoice.payment_failed"]);
      ("notification_email", VStr "blakeecom02@gmail.com") ].

(** [app.get('/health', ...)] (lines 122-129); [uptime] is the number
    [process.uptime()] returns. *)
Definition health (h : Host) (uptime : float) : M Response :=
  now <- new_Date h ;;
  logs_count <- logs_length ;;
  ret (mkResponse 200
         [ ("status", VStr "healthy");
           ("timestamp", VStr (toISOString h now));
           ("uptime", VNum uptime);
           ("logs_count", VNum (number_of_nat logs_count)) ]).

(** A log entry as the JSON object it is (line 11). *)
Definition entry_json (e : LogEntry) : value :=
  VObj [("timestamp", VStr (timestamp e)); ("message", VStr (entry_message e))].

(** [app.get('/logs', ...)] (lines 131-136). *)
Definition get_logs : M Response :=
  fun w =>
    let '(recent, total_logs) := logs_route w in
    (w, Returns (mkResponse 200
                   [ ("logs", VArr (map entry_json recent));   (* Last 20 logs *)
                     ("total_logs", VNum (number_of_nat total_logs)) ])).

(** [process.env.PORT]: an environment variable is a string, or
    [undefined] when it is not set. *)
Definition process_env (variable : option string) : value :=
  match variable with
  | Some s => VStr s
  | None => VUndefined
  end.

(** [const PORT = process.env.PORT || 3000] (line 194). *)
Definition PORT (env_PORT : option string) : value :=
  or_else (process_env env_PORT) (VNum 3000).

(** The callback of [app.listen] (lines 195-197), run once when the server
    starts. *)
Definition listening (h : Host) (env_PORT : option string) : M unit :=
  port <- lift (ToString h (PORT env_PORT)) ;;
  addLog h ("Stripe Payment Failure Monitor started on port " ++ port).

(** The requests the application has a route for, and the route each one
    runs. *)
Inductive Request : Type :=
| GET_root
| GET_health (uptime : float)
| GET_logs
| POST_webhook (body : value)
| POST_test.

Definition serve (h : Host) (g : Gmail) (r : Request) : M Response :=
  match r with
  | GET_root => ret root
  | GET_health uptime => health h uptime
  | GET_logs => get_logs
  | POST_webhook body => webhook h g body
  | POST_test => test h g
  end.

(** The process serving requests one after the other: for each request,
    the state it leaves and how far its handler got. *)
Fixpoint serve_all (h : Host) (g : Gmail) (requests : list Request) (w : World)
  : list (World * Outcome Response) :=
  match requests with
  | [] => []
  | r :: rest =>
      let '(w1, answer) := serve h g r w in
      (w1, answer) :: serve_all h g rest w1
  end.

(* ================================================================== *)
(** ** A concrete host and concrete events, for the examples *)

Module Sample.

(** Year, month and day of a day count since 1970-01-01 (proleptic
    Gregorian calendar). *)
Definition civil_from_days (days : Z) : Z * Z * Z :=
  let z := (days + 719468)%Z in
  let era := (z / 146097)%Z in
  let doe := (z - era * 146097)%Z in
  let yoe := ((doe - doe / 1460 + doe / 36524 - doe / 146096) / 365)%Z in
  let doy := (doe - (365 * yoe + yoe / 4 - yoe / 100))%Z in
  let mp := ((5 * doy + 2) / 153)%Z in
  let d := (doy - (153 * mp + 2) / 5 + 1)%Z in
  let m := (if mp <? 10 then mp + 3 else mp - 9)%Z in
  let y := (yoe + era * 400 + (if m <=? 2 then 1 else 0))%Z in
  (y, m, d).

Definition pad_left (width : nat) (n : Z) : string :=
  let s := decimal n in zeros (width - String.length s) ++ s.

(** [toISOString] for the years 0000 to 9999. *)
Definition iso (t : Z) : string :=
  let '(y, m, d) := civil_from_days (t / 86400000) in
  let ms := (t mod 86400000)%Z in
  pad_left 4 y ++ "-" ++ pad_left 2 m ++ "-" ++ pad_left 2 d ++ "T"
  ++ pad_left 2 (ms / 3600000) ++ ":" ++ pad_left 2 ((ms / 60000) mod 60)
  ++ ":" ++ pad_left 2 ((ms / 1000) mod 60) ++ "."
  ++ pad_left 3 (ms mod 1000) ++ "Z".

(** [toLocaleString] of a process in the en-US locale and the UTC zone
    (with a plain space before AM and PM). *)
Definition en_US (t : Z) : string :=
  let '(y, m, d) := civil_from_days (t / 86400000) in
  let ms := (t mod 86400000)%Z in
  let hour := (ms / 3600000)%Z in
  let hour12 := (if hour mod 12 =? 0 then 12 else hour mod 12)%Z in
  decimal m ++ "/" ++ decimal d ++ "/" ++ decimal y ++ ", "
  ++ decimal hour12 ++ ":" ++ pad_left 2 ((ms / 60000) mod 60)
  ++ ":" ++ pad_left 2 ((ms / 1000) mod 60)
  ++ (if (hour <? 12)%Z then " AM" else " PM").

(** A host whose clock starts at 2023-11-14T22:13:20Z and advances a
    quarter of a second per reading.  The examples print no number that is
    not a small integer, convert no string to a number and change the case
    of ASCII text only, so the first three components are never
    consulted. *)
Definition host : Host :=
  mkHost (fun _ => "NaN") (fun _ => PrimFloat.nan) (fun s => s)
         (fun k => (1700000000000 + 250 * Z.of_nat k)%Z) iso en_US.

(** A Gmail API that accepts every message, one that rejects every message
    with the given detail, and one that never answers. *)
Definition gmail_ok : Gmail := mkGmail (fun _ _ => Accepts).
Definition gmail_failing (detail : string) : Gmail :=
  mkGmail (fun _ _ => Rejects (mkError detail)).
Definition gmail_silent : Gmail := mkGmail (fun _ _ => NeverSettles).

Definition event (type : string) (object : list (string * value)) : value :=
  VObj [("type", VStr type); ("data", VObj [("object", VObj object)])].

(** The charge of the spec's end-to-end scenarios A and B. *)
Definition charge_failed : value :=
  event "charge.failed"
    [ ("amount", VNum 2599); ("currency", VStr "usd"); ("id", VStr "ch_1");
      ("created", VNum 1700000000); ("customer", VStr "cus_1") ].


(** A charge whose payload has an amount and nothing else. *)
Definition charge_without_currency : value :=
  event "charge.failed" [ ("amount", VNum 2599) ].

(** The event of scenario C: [{type: "customer.created", data: {}}]. *)
Definition customer_created : value :=
  VObj [("type", VStr "customer.created"); ("data", VObj [])].

Definition invoice (extra : list (string * value)) : value :=
  event "invoice.payment_failed"
    ([ ("id", VStr "in_1"); ("amount_due", VNum 4900);
       ("currency", VStr "eur"); ("customer", VStr "cus_1");
       ("attempt_count", VNum 2) ] ++ extra).

(** An invoice with a retry scheduled for 2023-11-15T22:13:20Z, one with
    no [next_payment_attempt], and one whose [next_payment_attempt] is the
    epoch itself, second 0. *)
Definition invoice_with_retry : value :=
  invoice [("next_payment_attempt", VNum 1700086400)].
Definition invoice_without_retry : value := invoice [].
Definition invoice_retry_at_epoch : value :=
  invoice [("next_payment_attempt", VNum 0)].

(** An invoice without [id]. *)
Definition invoice_without_id : value :=
  event "invoice.payment_failed"
    [ ("amount_due", VNum 4900); ("currency", VStr "eur");
      ("customer", VStr "cus_1"); ("attempt_count", VNum 2) ].

(** An invoice with neither [id] nor [currency]. *)
Definition invoice_without_id_and_currency : value :=
  event "invoice.payment_failed"
    [ ("amount_due", VNum 4900); ("customer", VStr "cus_1");
      ("attempt_count", VNum 2) ].

(** The object [JSON.parse] makes of [{"toString": 1}]: its own property
    hides the method every object inherits, so it cannot be converted to a
    string or a number. *)
Definition without_text : value := VObj [("toString", VNum 1)].

(** The event [{"type": {"toString": 1}}]. *)
Definition type_without_text : value := VObj [("type", without_text)].

(** The charge of scenario A whose [customer] is that object. *)
Definition charge_customer_without_text : value :=
  event "charge.failed"
    [ ("amount", VNum 2599); ("currency", VStr "usd"); ("id", VStr "ch_1");
      ("created", VNum 1700000000); ("customer", without_text) ].

(** 105 pairwise distinct messages. *)
Definition messages105 : list string :=
  map (fun n => "message " ++ decimal (Z.of_nat n)) (seq 1 105).

End Sample.

(* ================================================================== *)
(** ** The vocabulary of the properties *)

(** The entry an [addLog] call creates in world [w]. *)
Definition new_entry (h : Host) (w : World) (m : string) : LogEntry :=
  mkLogEntry (toISOString h (Date_now h (dates w))) m.

(** [push], then at most one [shift]. *)
Definition push_trim (l : list LogEntry) (e : LogEntry) : list LogEntry :=
  let l' := (l ++ [e])%list in
  if (100 <? List.length l')%nat then tl l' else l'.

(** A boolean test for [NoDup] on strings. *)
Fixpoint nodupb (l : list string) : bool :=
  match l with
  | [] => true
  | x :: r => negb (existsb (String.eqb x) r) && nodupb r
  end.

(** The value of [o.k] when the read does not throw. *)
Definition prop (o : value) (k : string) : value :=
  match get o k with
  | Ret v => v
  | Throw _ => VUndefined
  end.

(** The event types the handler monitors (line 145). *)
Definition monitored (type : value) : bool :=
  strict_eq_string type "charge.failed"
  || strict_eq_string type "invoice.payment_failed".

(** The world with [raw] recorded as one more call of the Gmail API. *)
Definition record_send (raw : string) (w : World) : World :=
  mkWorld (logs w) (console w) (dates w) (sent w ++ [raw])%list.

(** The values [ToString] and [ToNumber] accept: every value but an object
    with an own property [toString], and an array with an element that is
    not accepted. *)
Fixpoint printable (v : value) : bool :=
  match v with
  | VArr items => forallb printable items
  | VObj fields => negb (has_own "toString" fields)
  | _ => true
  end.

(** The string and the number of a value, where the conversion does not
    throw. *)
Definition text (h : Host) (v : value) : string :=
  match ToString h v with
  | Ret s => s
  | Throw _ => EmptyString
  end.

Definition number (h : Host) (v : value) : float :=
  match ToNumber h v with
  | Ret x => x
  | Throw _ => PrimFloat.nan
  end.

(** The text of [event.type] as the log entries show it. *)
Definition type_text (h : Host) (event : value) : string :=
  text h (prop event "type").

(** The [raw] payload [sendEmail] hands to the API for a rendered
    notification. *)
Definition payload (h : Host) (c : NotificationContent) : Result string :=
  let? message := email_message h (subject c) (body c) in
  Ret (encodedMessage message).

(** The message of lines 33-39 for a subject and a body that are strings. *)
Definition email_text (subject body : string) : string :=
  "To: blakeecom02@gmail.com" ++ Str.nl
  ++ "Subject: " ++ subject ++ Str.nl
  ++ "Content-Type: text/html; charset=utf-8" ++ Str.nl
  ++ Str.nl
  ++ body.


(** [appended h w w' ms]: between [w] and [w'] the log received exactly the
    [addLog] calls for the messages [ms], in this order. *)
Definition appended (h : Host) (w w' : World) (ms : list string) : Prop :=
  logs w' = logs (appends h w ms).




(** The double of an integer count of minor currency units. *)
Definition float_of_cents (n : Z) : float := PrimFloat.of_uint63 (Uint63.of_Z n).

(** The numeral of [n] hundredths: the units, a point, two digits. *)
Definition cents_numeral (n : Z) : string :=
  decimal (n / 100) ++ "."
  ++ (if (n mod 100 <? 10)%Z then "0" else EmptyString) ++ decimal (n mod 100).

(** The world after one more reading of the clock. *)
Definition tick (w : World) : World :=
  mkWorld (logs w) (console w) (S (dates w)) (sent w).

(** The capacity invariant of the log. *)
Definition bounded (w : World) : Prop := (List.length (logs w) <= 100)%nat.

(** [logged w w' ms]: from a bounded log, the step from [w] to [w'] keeps
    the log bounded and leaves in it the last 100 of its former messages
    followed by [ms]. *)
Definition logged (w w' : World) (ms : list string) : Prop :=
  bounded w ->
  bounded w' /\ messages w' = slice_last 100 (messages w ++ ms).

(** The lines the console shows for the messages [msgs]: each message
    after a bracketed timestamp. *)
Definition printed (lines msgs : list string) : Prop :=
  Forall2 (fun line m => exists stamp, line = "[" ++ stamp ++ "] " ++ m)
    lines msgs.

(** [printed_since w w' ms]: from [w] to [w'] the console received one line
    for each of the messages [ms], in this order, and nothing else. *)
Definition printed_since (w w' : World) (ms : list string) : Prop :=
  exists lines, console w' = (console w ++ lines)%list /\ printed lines ms.

(** What [req.body] can be when the handler of POST /webhook runs: the
    object or the array that [express.json()] parsed, or [undefined] where
    nothing was parsed.  (To a JSON text that is neither an object nor an
    array the parser answers 400 itself.) *)
Definition request_body_shape (v : value) : bool :=
  match v with
  | VObj _ | VArr _ | VUndefined => true
  | _ => false
  end.

(** The requests that may send an email. *)
Definition is_post (r : Request) : bool :=
  match r with
  | POST_webhook _ | POST_test => true
  | GET_root | GET_health _ | GET_logs => false
  end.

(** The requests whose handler runs (see [request_body_shape]). *)
Definition reaches_handler (r : Request) : bool :=
  match r with
  | POST_webhook body => request_body_shape body
  | _ => true
  end.

(** What holds of every request the process serves, from the state [w] it
    finds to the state [w'] it leaves, with [o] how far its handler got:
    the log stays within its capacity; no exception leaves the handler;
    the handler logged some messages [ms], at most three and none on a GET
    route, each of which is in the log, after the last 100 of the former
    ones, and on the console; the calls of the Gmail API made before are
    still recorded, and the handler added at most one, none on a GET route;
    and a handler that is still suspended made a call that the API never
    answers. *)
Definition step_invariant (g : Gmail) (r : Request) (w w' : World)
  (o : Outcome Response) : Prop :=
  bounded w'
  /\ (forall e, o <> Throws e)
  /\ (exists ms,
        messages w' = slice_last 100 (messages w ++ ms)
        /\ printed_since w w' ms
        /\ (List.length ms <= if is_post r then 3 else 0)%nat)
  /\ (exists calls,
        sent w' = (sent w ++ calls)%list
        /\ (List.length calls <= if is_post r then 1 else 0)%nat
        /\ (o = Pending ->
            exists raw,
              calls = [raw]
              /\ messages_send g (List.length (sent w)) raw = NeverSettles)).

(** [each_step P w requests run]: [run] has one state and outcome for each
    of the [requests], and [P] holds of every request with the state before
    it and the state and outcome after it. *)
Fixpoint each_step (P : Request -> World -> World -> Outcome Response -> Prop)
  (w : World) (requests : list Request) (run : list (World * Outcome Response))
  : Prop :=
  match requests, run with
  | [], [] => True
  | r :: requests', (w', o) :: run' =>
      P r w w' o /\ each_step P w' requests' run'
  | _, _ => False
  end.

(** The properties of [data.object] each branch of the renderer reads. *)
Definition fields_read (type : string) : list string :=
  if String.eqb type "charge.failed"
  then [ "customer"; "amount"; "currency"; "failure_code"; "failure_message";
         "id"; "created" ]
  else [ "customer"; "amount_due"; "currency"; "number"; "subscription";
         "attempt_count"; "next_payment_attempt"; "id" ].

(** Every property the renderer reads for this type of event has a string
    and a number: none is an object with an own property [toString], or an
    array with such an element. *)
Definition fields_printable (type : string) (object : value) : bool :=
  forallb (fun k => printable (prop object k)) (fields_read type).

(** The alphabet of URL-safe base64 (RFC 4648, section 5) and the value of
    each of its characters. *)
Definition url_alphabet : string :=
  "ABCDEFGHIJKLMNOPQRSTUVWXYZabcdefghijklmnopqrstuvwxyz0123456789-_".

Fixpoint index_of (c : ascii) (s : string) : option N :=
  match s with
  | EmptyString => None
  | String d s' =>
      if Ascii.eqb c d then Some 0%N else option_map N.succ (index_of c s')
  end.

Definition url_value (c : ascii) : option N := index_of c url_alphabet.



Fixpoint all_url_safe (s : string) : bool :=
  match s with
  | EmptyString => true
  | String c s' =>
      match url_value c with Some _ => true | None => false end
      && all_url_safe s'
  end.

(** The decoder of unpadded URL-safe base64, as a recipient of the [raw]
    field applies it: four characters give three bytes, a final group of
    three gives two and one of two gives one; a character outside the
    alphabet or a final group of one is an error. *)
Definition byte_of (n : N) : ascii := ascii_of_N (n mod 256).

Fixpoint decode_url (s : string) : option string :=
  match s with
  | EmptyString => Some EmptyString
  | String c0 (String c1 EmptyString) =>
      match url_value c0, url_value c1 with
      | Some v0, Some v1 =>
          let m := (v0 * 262144 + v1 * 4096)%N in
          Some (String (byte_of (m / 65536)) EmptyString)
      | _, _ => None
      end
  | String c0 (String c1 (String c2 EmptyString)) =>
      match url_value c0, url_value c1, url_value c2 with
      | Some v0, Some v1, Some v2 =>
          let m := (v0 * 262144 + v1 * 4096 + v2 * 64)%N in
          Some (String (byte_of (m / 65536))
                  (String (byte_of (m / 256)) EmptyString))
      | _, _, _ => None
      end
  | String c0 (String c1 (String c2 (String c3 rest))) =>
      match url_value c0, url_value c1, url_value c2, url_value c3,
            decode_url rest with
      | Some v0, Some v1, Some v2, Some v3, Some bytes =>
          let m := (v0 * 262144 + v1 * 4096 + v2 * 64 + v3)%N in
          Some (String (byte_of (m / 65536))
                  (String (byte_of (m / 256))
                     (String (byte_of m) bytes)))
      | _, _, _, _, _ => None
      end
  | String _ EmptyString => None
  end.

(** A base64 digit after the two replacements of line 41. *)
Definition url_digit (n : N) : ascii :=
  let c := Base64.digit n in
  let c := if Ascii.eqb c "+"%char then "-"%char else c in
  if Ascii.eqb c "/"%char then "_"%char else c.

(** The encoding of line 41 written directly: URL-safe digits and no
    padding. *)
Fixpoint encode_url (s : string) : string :=
  match s with
  | EmptyString => EmptyString
  | String a EmptyString =>
      let n := (N_of_ascii a * 65536)%N in
      String (url_digit (n / 262144))
        (String (url_digit ((n / 4096) mod 64)) EmptyString)
  | String a (String b EmptyString) =>
      let n := (N_of_ascii a * 65536 + N_of_ascii b * 256)%N in
      String (url_digit (n / 262144))
        (String (url_digit ((n / 4096) mod 64))
           (String (url_digit ((n / 64) mod 64)) EmptyString))
  | String a (String b (String c rest)) =>
      let n := (N_of_ascii a * 65536 + N_of_ascii b * 256 + N_of_ascii c)%N in
      String (url_digit (n / 262144))
        (String (url_digit ((n / 4096) mod 64))
           (String (url_digit ((n / 64) mod 64))
              (String (url_digit (n mod 64)) (encode_url rest))))
  end.

(** The entries a run of [addLog] calls creates for the messages [msgs]
    when the first call makes the [k]-th reading of the clock: each call
    reads the clock twice and stamps its entry with the first reading. *)
Fixpoint entries_from (h : Host) (k : nat) (msgs : list string) : list LogEntry :=
  match msgs with
  | [] => []
  | m :: rest =>
      mkLogEntry (toISOString h (Date_now h k)) m :: entries_from h (S (S k)) rest
  end.

(* ================================================================== *)
(** * Properties *)

(** ** Strings *)

Module StrFacts.
Import Str.

Lemma append_nil_r (s : string) : s ++ EmptyString = s.
Proof. induction s as [|c s IH]; simpl; [reflexivity | now rewrite IH]. Qed.

Lemma append_assoc (a b c : string) : (a ++ b) ++ c = a ++ (b ++ c).
Proof. induction a as [|x a IH]; simpl; [reflexivity | now rewrite IH]. Qed.


Lemma prefix_split (t s : string) :
  String.prefix t s = true -> exists post, s = t ++ post.
Proof.
  revert s; induction t as [|c t IH]; intros s H.
  - now exists s.
  - destruct s as [|d s]; simpl in H; [discriminate|].
    destruct (Ascii.ascii_dec c d) as [->|]; [|discriminate].
    destruct (IH s H) as [post ->]. now exists post.
Qed.

Lemma prefix_append (t post : string) : String.prefix t (t ++ post) = true.
Proof.
  induction t as [|c t IH]; simpl; [now destruct post|].
  destruct (Ascii.ascii_dec c c); [exact IH | congruence].
Qed.

Lemma isInfix_contains (t s : string) :
  isInfix t s = true <-> contains s t.
Proof.
  split.
  - induction s as [|c s IH]; cbn [isInfix]; intros H.
    + rewrite orb_false_r in H. destruct t; [|discriminate].
      now exists EmptyString, EmptyString.
    + apply orb_true_iff in H as [H|H].
      * apply prefix_split in H as [post ->]. now exists EmptyString, post.
      * destruct (IH H) as (pre & post & ->). now exists (String c pre), post.
  - intros (pre & post & ->).
    induction pre as [|c pre IH].
    + cbn [append]. destruct (t ++ post) eqn:E; cbn [isInfix];
        rewrite <- E, prefix_append; reflexivity.
    + cbn [append isInfix]. rewrite IH. apply orb_true_r.
Qed.

Lemma contains_app_l (a b t : string) : contains a t -> contains (a ++ b) t.
Proof.
  intros (pre & post & ->). exists pre, (post ++ b).
  now rewrite !append_assoc.
Qed.

Lemma contains_app_r (a b t : string) : contains b t -> contains (a ++ b) t.
Proof.
  intros (pre & post & ->). exists (a ++ pre), post.
  now rewrite !append_assoc.
Qed.

Lemma contains_refl (t : string) : contains t t.
Proof. exists EmptyString, EmptyString. simpl. now rewrite append_nil_r. Qed.

End StrFacts.
Import Str StrFacts.

(** ** The activity log *)

Section ActivityLog.

Variable h : Host.

Lemma addLog_run (m : string) (w : World) :
  addLog h m w =
    (mkWorld (push_trim (logs w) (new_entry h w m))
             (console w
              ++ [("[" ++ toISOString h (Date_now h (S (dates w))) ++ "] " ++ m)%string])%list
             (S (S (dates w)))
             (sent w),
     Returns tt).
Proof.
  unfold addLog, bind, new_Date, logs_push, logs_length, push_trim, new_entry.
  cbn -[Nat.ltb]. destruct (100 <? _)%nat; reflexivity.
Qed.

Lemma addLog_returns (m : string) (w : World) :
  addLog h m w = (appends h w [m], Returns tt).
Proof. unfold appends. cbn [fold_left]. now rewrite addLog_run. Qed.

Lemma logs_addLog (m : string) (w : World) :
  logs (fst (addLog h m w)) = push_trim (logs w) (new_entry h w m).
Proof. now rewrite addLog_run. Qed.

Lemma sent_addLog (m : string) (w : World) :
  sent (fst (addLog h m w)) = sent w.
Proof. now rewrite addLog_run. Qed.

Lemma appends_app (w : World) (a b : list string) :
  appends h w (a ++ b) = appends h (appends h w a) b.
Proof. unfold appends. apply fold_left_app. Qed.

Lemma appends_cons (w : World) (m : string) (ms : list string) :
  appends h w (m :: ms) = appends h (fst (addLog h m w)) ms.
Proof. reflexivity. Qed.

Lemma sent_appends (w : World) (ms : list string) :
  sent (appends h w ms) = sent w.
Proof.
  revert w; induction ms as [|m ms IH]; intros w; [reflexivity|].
  rewrite appends_cons, IH. apply sent_addLog.
Qed.

(** *** [slice(-n)] *)

Lemma slice_last_all {A} (n : nat) (l : list A) :
  (List.length l <= n)%nat -> slice_last n l = l.
Proof.
  intros H. unfold slice_last.
  replace (List.length l - n)%nat with 0%nat by lia. reflexivity.
Qed.

Lemma length_slice_last {A} (n : nat) (l : list A) :
  List.length (slice_last n l) = Nat.min n (List.length l).
Proof. unfold slice_last. rewrite length_skipn. lia. Qed.

Lemma map_slice_last {A B} (f : A -> B) (n : nat) (l : list A) :
  map f (slice_last n l) = slice_last n (map f l).
Proof. unfold slice_last. now rewrite length_map, skipn_map. Qed.

Lemma slice_last_app {A} (n : nat) (a b : list A) :
  slice_last n (slice_last n a ++ b) = slice_last n (a ++ b).
Proof.
  destruct (Nat.le_gt_cases (List.length a) n) as [Hle|Hgt].
  - now rewrite (slice_last_all n a Hle).
  - unfold slice_last at 1 3. rewrite !length_app, length_slice_last.
    unfold slice_last.
    rewrite (skipn_app (List.length a + List.length b - n)).
    rewrite (skipn_app (Nat.min n (List.length a) + List.length b - n)).
    rewrite length_skipn, skipn_skipn.
    f_equal; f_equal; lia.
Qed.

Lemma push_trim_slice (l : list LogEntry) (e : LogEntry) :
  (List.length l <= 100)%nat -> push_trim l e = slice_last 100 (l ++ [e]).
Proof.
  intros H. unfold push_trim, slice_last. rewrite length_app. cbn [List.length].
  destruct (100 <? List.length l + 1)%nat eqn:E.
  - apply Nat.ltb_lt in E.
    replace (List.length l + 1 - 100)%nat with 1%nat by lia.
    now destruct (l ++ [e])%list.
  - apply Nat.ltb_ge in E.
    replace (List.length l + 1 - 100)%nat with 0%nat by lia. reflexivity.
Qed.

(** *** The capacity invariant *)

Lemma addLog_bounded (m : string) (w : World) :
  (List.length (logs w) <= 100)%nat ->
  (List.length (logs (fst (addLog h m w))) <= 100)%nat.
Proof.
  intros H. rewrite logs_addLog, push_trim_slice, length_slice_last by exact H.
  lia.
Qed.

Lemma appends_bounded (w : World) (ms : list string) :
  (List.length (logs w) <= 100)%nat ->
  (List.length (logs (appends h w ms)) <= 100)%nat.
Proof.
  revert w; induction ms as [|m ms IH]; intros w H; [exact H|].
  rewrite appends_cons. apply IH, addLog_bounded, H.
Qed.

Lemma messages_addLog (m : string) (w : World) :
  (List.length (logs w) <= 100)%nat ->
  messages (fst (addLog h m w)) = slice_last 100 (messages w ++ [m]).
Proof.
  intros H. unfold messages.
  rewrite logs_addLog, push_trim_slice, map_slice_last, map_app by exact H.
  reflexivity.
Qed.

(** After any run of [addLog] calls the log holds the last 100 of what it
    held before followed by the new messages, in order. *)
Lemma messages_appends (w : World) (ms : list string) :
  (List.length (logs w) <= 100)%nat ->
  messages (appends h w ms) = slice_last 100 (messages w ++ ms).
Proof.
  revert w; induction ms as [|m ms IH]; intros w H.
  - cbn. rewrite app_nil_r, slice_last_all; [reflexivity|].
    unfold messages. now rewrite length_map.
  - rewrite appends_cons, IH by (apply addLog_bounded, H).
    rewrite messages_addLog by exact H.
    rewrite slice_last_app, <- app_assoc. reflexivity.
Qed.

Lemma length_logs_appends (w : World) (ms : list string) :
  (List.length (logs w) <= 100)%nat ->
  List.length (logs (appends h w ms))
  = Nat.min 100 (List.length (logs w) + List.length ms).
Proof.
  intros H.
  rewrite <- (length_map entry_message (logs (appends h w ms))).
  fold (messages (appends h w ms)).
  rewrite messages_appends, length_slice_last, length_app by exact H.
  unfold messages. now rewrite length_map.
Qed.

(** The final entry of the log is the one appended last. *)
Lemma last_push_trim (l : list LogEntry) (e d : LogEntry) :
  last (push_trim l e) d = e.
Proof.
  unfold push_trim. destruct (100 <? _)%nat eqn:E.
  - destruct l as [|x l]; [discriminate|]. cbn [app tl].
    apply last_last.
  - apply last_last.
Qed.

Lemma last_message_appends (w : World) (ms : list string) (m d : string) :
  last (messages (appends h w (ms ++ [m]))) d = m.
Proof.
  rewrite appends_app.
  change (appends h (appends h w ms) [m])
    with (fst (addLog h m (appends h w ms))).
  unfold messages. rewrite logs_addLog.
  pose proof (last_push_trim (logs (appends h w ms))
                (new_entry h (appends h w ms) m) (mkLogEntry EmptyString d)) as E.
  revert E. generalize (push_trim (logs (appends h w ms))
                          (new_entry h (appends h w ms) m)).
  intros l E.
  assert (G : last (map entry_message l) d
              = entry_message (last l (mkLogEntry EmptyString d))).
  { clear E. induction l as [|x [|y l] IH]; try reflexivity. exact IH. }
  rewrite G, E. reflexivity.
Qed.

End ActivityLog.

Lemma NoDup_app_disjoint {A} (a b : list A) (x : A) :
  NoDup (a ++ b) -> In x a -> ~ In x b.
Proof.
  induction a as [|y a IH]; cbn; intros H Hin Hb; [contradiction|].
  inversion H as [|? ? Hnotin Hrest]; subst.
  destruct Hin as [->|Hin].
  - apply Hnotin, in_or_app. now right.
  - exact (IH Hrest Hin Hb).
Qed.

Lemma nodupb_sound (l : list string) : nodupb l = true -> NoDup l.
Proof.
  induction l as [|x r IH]; cbn; intros H; constructor;
    apply andb_true_iff in H as [Hx Hr].
  - intros Hin. apply negb_true_iff in Hx.
    assert (existsb (String.eqb x) r = true) as E; [|congruence].
    apply existsb_exists. exists x. split; [exact Hin | apply String.eqb_refl].
  - exact (IH Hr).
Qed.

(** C2.  Start from the empty log and append the messages [msgs] one after
    the other with [addLog].  After every append (after the first [k]
    messages, for every [k]) the log has at most 100 entries, exactly
    [min k' 100] of them where [k'] counts the appends made, and
    [logs.slice(-100)] (the spec's [recent(100)]; [logs.length] is its
    [size()]) holds exactly the last [min k' 100] appended messages, oldest
    first.  In particular after 105 appends the log has 100 entries, which
    are the messages of appends 6 to 105; when the 105 messages are pairwise
    distinct none of the first 5 is in the log. *)
Theorem activity_log_keeps_last_100 (h : Host) (msgs : list string) (k : nat) :
  let appended := firstn k msgs in
  let w := appends h empty_world appended in
  let n := Nat.min (List.length appended) 100 in
  (List.length (logs w) <= 100)%nat
  /\ List.length (logs w) = n
  /\ map entry_message (slice_last 100 (logs w)) = slice_last n appended
  /\ (List.length msgs = 105%nat ->
      let w105 := appends h empty_world msgs in
      let recent := map entry_message (slice_last 100 (logs w105)) in
      List.length (logs w105) = 100%nat
      /\ recent = skipn 5 msgs
      /\ (NoDup msgs -> forall m, In m (firstn 5 msgs) -> ~ In m recent)).
Proof.
  intros appended w n.
  assert (B : forall ms, (List.length (logs (appends h empty_world ms)) <= 100)%nat).
  { intros ms. apply appends_bounded. cbn. lia. }
  assert (R : forall ms, map entry_message
                           (slice_last 100 (logs (appends h empty_world ms)))
                         = slice_last (Nat.min (List.length ms) 100) ms).
  { intros ms. rewrite slice_last_all by apply B.
    fold (messages (appends h empty_world ms)).
    rewrite messages_appends by (cbn; lia). cbn [messages empty_world logs map app].
    unfold slice_last. f_equal. lia. }
  assert (L : forall ms, List.length (logs (appends h empty_world ms))
                         = Nat.min (List.length ms) 100).
  { intros ms. rewrite length_logs_appends by (cbn; lia).
    cbn [empty_world logs List.length]. lia. }
  split; [apply B|]. split; [apply L|]. split; [apply R|].
  intros H105 w105 recent. subst w105 recent.
  split; [rewrite L; lia|].
  rewrite R. unfold slice_last.
  replace (List.length msgs - Nat.min (List.length msgs) 100)%nat
    with 5%nat by lia.
  split; [reflexivity|].
  intros ND m Hin.
  apply NoDup_app_disjoint with (a := firstn 5 msgs); [|exact Hin].
    now rewrite firstn_skipn.
Qed.

(* ================================================================== *)
(** ** Reading properties *)

Lemma get_prop (o : value) (k : string) :
  nullish o = false -> get o k = Ret (prop o k).
Proof. unfold prop. destruct o; cbn; intros H; (discriminate || reflexivity). Qed.

Lemma get_nullish (o : value) (k : string) :
  nullish o = true -> get o k = Throw (TypeError_read o k).
Proof. destruct o; cbn; intros H; (discriminate || reflexivity). Qed.

Lemma get_Ret_nonnullish (o : value) (k : string) (v : value) :
  get o k = Ret v -> nullish o = false /\ prop o k = v.
Proof.
  unfold prop. destruct o; cbn; intros H; try discriminate;
    (split; [reflexivity | congruence]).
Qed.

(* ================================================================== *)
(** ** Conversions *)

(** Induction on a value, with the hypothesis for every element of an
    array. *)
Lemma value_induction (P : value -> Prop) :
  P VUndefined -> P VNull -> (forall b, P (VBool b)) -> (forall x, P (VNum x)) ->
  (forall s, P (VStr s)) ->
  (forall items, Forall P items -> P (VArr items)) ->
  (forall fields, P (VObj fields)) ->
  forall v, P v.
Proof.
  intros HU HN HB HX HS HA HO. fix IH 1. intros [ | | b | x | s | items | fields].
  - exact HU.
  - exact HN.
  - apply HB.
  - apply HX.
  - apply HS.
  - apply HA. induction items as [|i items IHitems]; constructor.
    + apply IH.
    + exact IHitems.
  - apply HO.
Qed.

Lemma ToString_array (h : Host) (items : list value) :
  ToString h (VArr items) = Array_join h "," items.
Proof.
  induction items as [|x rest IH]; [reflexivity|].
  change (ToString h (VArr (x :: rest)))
    with (match join_element h x with
          | Throw e => Throw e
          | Ret s =>
              match rest with
              | [] => Ret s
              | _ :: _ =>
                  match ToString h (VArr rest) with
                  | Throw e => Throw e
                  | Ret r => Ret (s ++ "," ++ r)
                  end
              end
          end).
  rewrite IH. cbn [Array_join bindR].
  destruct (join_element h x); [|reflexivity].
  destruct rest; [reflexivity|]. cbn [bindR].
  destruct (Array_join h "," (v :: rest)); reflexivity.
Qed.

Lemma join_element_decided (h : Host) (x : value) :
  (ToString h x = if printable x then Ret (text h x) else Throw TypeError_convert) ->
  join_element h x
  = if printable x then Ret (match x with
                             | VUndefined | VNull => EmptyString
                             | _ => text h x
                             end)
    else Throw TypeError_convert.
Proof. intros H. destruct x; try exact H; reflexivity. Qed.

Lemma Array_join_decided (h : Host) (sep : string) (items : list value) :
  Forall (fun v => ToString h v
                   = if printable v then Ret (text h v) else Throw TypeError_convert)
         items ->
  if forallb printable items then exists s, Array_join h sep items = Ret s
  else Array_join h sep items = Throw TypeError_convert.
Proof.
  induction 1 as [|x rest Hx Hrest IH]; [now exists EmptyString|].
  cbn [forallb Array_join]. rewrite (join_element_decided h x Hx).
  destruct (printable x); cbn [andb bindR]; [|reflexivity].
  destruct rest as [|y rest]; [cbn; eauto|].
  destruct (forallb printable (y :: rest)).
  - destruct IH as [r ->]. cbn [bindR]. eauto.
  - rewrite IH. reflexivity.
Qed.

(** Whether a conversion throws is decided by [printable], and what it
    throws is the one TypeError. *)
Lemma ToString_decided (h : Host) (v : value) :
  ToString h v = if printable v then Ret (text h v) else Throw TypeError_convert.
Proof.
  induction v as [ | | b | x | s | items IH | fields ] using value_induction;
    try reflexivity.
  - destruct b; reflexivity.
  - pose proof (Array_join_decided h "," items IH) as J.
    rewrite <- ToString_array in J.
    change (printable (VArr items)) with (forallb printable items).
    unfold text. destruct (forallb printable items).
    + destruct J as [s ->]. reflexivity.
    + rewrite J. reflexivity.
  - unfold text. cbn. destruct (has_own "toString" fields); reflexivity.
Qed.

Lemma ToString_text (h : Host) (v : value) :
  printable v = true -> ToString h v = Ret (text h v).
Proof. intros P. now rewrite ToString_decided, P. Qed.

Lemma ToString_unprintable (h : Host) (v : value) :
  printable v = false -> ToString h v = Throw TypeError_convert.
Proof. intros P. now rewrite ToString_decided, P. Qed.

Lemma ToNumber_decided (h : Host) (v : value) :
  ToNumber h v = if printable v then Ret (number h v) else Throw TypeError_convert.
Proof.
  unfold number.
  destruct v as [ | | b | x | s | items | fields ]; try reflexivity.
  - destruct b; reflexivity.
  - unfold ToNumber. rewrite ToString_decided.
    destruct (printable (VArr items)); reflexivity.
  - unfold ToNumber. rewrite ToString_decided.
    destruct (printable (VObj fields)); reflexivity.
Qed.

Lemma ToNumber_number (h : Host) (v : value) :
  printable v = true -> ToNumber h v = Ret (number h v).
Proof. intros P. now rewrite ToNumber_decided, P. Qed.

Lemma ToNumber_unprintable (h : Host) (v : value) :
  printable v = false -> ToNumber h v = Throw TypeError_convert.
Proof. intros P. now rewrite ToNumber_decided, P. Qed.

(** A value that cannot be converted is an object or an array, which is
    truthy: [||] keeps it. *)
Lemma unprintable_truthy (v : value) : printable v = false -> ToBoolean v = true.
Proof. destruct v; cbn; intros H; (discriminate || reflexivity). Qed.

Lemma printable_or_else (a : value) (d : string) :
  printable (or_else a (VStr d)) = printable a.
Proof.
  unfold or_else. destruct (ToBoolean a) eqn:E; [reflexivity|].
  destruct (printable a) eqn:P; [reflexivity|].
  now rewrite (unprintable_truthy a P) in E.
Qed.

Lemma text_string (h : Host) (s : string) : text h (VStr s) = s.
Proof. reflexivity. Qed.

Lemma text_undefined (h : Host) : text h VUndefined = "undefined".
Proof. reflexivity. Qed.

Lemma email_message_strings (h : Host) (subject body : string) :
  email_message h (VStr subject) (VStr body) = Ret (email_text subject body).
Proof. reflexivity. Qed.

Lemma payload_strings (h : Host) (subject body : string) :
  payload h (mkContent (VStr subject) (VStr body))
  = Ret (encodedMessage (email_text subject body)).
Proof. reflexivity. Qed.

(* ================================================================== *)
(** ** The handler, exit by exit *)

(** Replace the next [addLog] call that is applied to a known world by its
    effect. *)
Ltac log_step :=
  cbv beta iota;
  match goal with
  | |- context [addLog ?h0 ?m ?w0] => rewrite (addLog_returns h0 m w0)
  end.

Section Handler.

Variable h : Host.
Variable g : Gmail.

Lemma addLog_record_send (raw m : string) (w : World) :
  fst (addLog h m (record_send raw w)) = record_send raw (fst (addLog h m w)).
Proof. now rewrite !addLog_run. Qed.

Lemma appends_record_send (raw : string) (ms : list string) (w : World) :
  appends h (record_send raw w) ms = record_send raw (appends h w ms).
Proof.
  revert w; induction ms as [|m ms IH]; intros w; [reflexivity|].
  now rewrite !appends_cons, addLog_record_send, IH.
Qed.

Lemma appends_appends (w : World) (a b : list string) :
  appends h (appends h w a) b = appends h w (a ++ b).
Proof. symmetry. apply appends_app. Qed.

(** [sendEmail] when the message cannot be built, when the API accepts the
    message, when it rejects it and when it never answers. *)
Lemma sendEmail_unbuilt (subject body : value) (w : World) (e : Error) :
  email_message h subject body = Throw e ->
  sendEmail h g subject body w
  = (appends h w ["Failed to send email: " ++ message e], Throws e).
Proof.
  intros E. unfold sendEmail, try_catch, bind, getGmailAuth, ret, throw, lift.
  rewrite E. log_step. reflexivity.
Qed.

Lemma sendEmail_ok (subject body : value) (w : World) (text : string) :
  email_message h subject body = Ret text ->
  messages_send g (List.length (sent w)) (encodedMessage text) = Accepts ->
  sendEmail h g subject body w
  = (record_send (encodedMessage text)
       (appends h w ["Email sent successfully to blakeecom02@gmail.com"]),
     Returns true).
Proof.
  intros E S. unfold sendEmail, try_catch, bind, getGmailAuth, ret, lift,
    gmail_users_messages_send. rewrite E, S.
  fold (record_send (encodedMessage text) w).
  log_step. rewrite appends_record_send. reflexivity.
Qed.

Lemma sendEmail_rejected (subject body : value) (w : World) (text : string)
  (e : Error) :
  email_message h subject body = Ret text ->
  messages_send g (List.length (sent w)) (encodedMessage text) = Rejects e ->
  sendEmail h g subject body w
  = (record_send (encodedMessage text)
       (appends h w ["Failed to send email: " ++ message e]),
     Throws e).
Proof.
  intros E S. unfold sendEmail, try_catch, bind, getGmailAuth, ret, throw, lift,
    gmail_users_messages_send. rewrite E, S.
  fold (record_send (encodedMessage text) w).
  log_step. rewrite appends_record_send. reflexivity.
Qed.

Lemma sendEmail_pending (subject body : value) (w : World) (text : string) :
  email_message h subject body = Ret text ->
  messages_send g (List.length (sent w)) (encodedMessage text) = NeverSettles ->
  sendEmail h g subject body w = (record_send (encodedMessage text) w, Pending).
Proof.
  intros E S. unfold sendEmail, try_catch, bind, getGmailAuth, ret, lift,
    gmail_users_messages_send. rewrite E, S. reflexivity.
Qed.

Lemma payload_Ret (c : NotificationContent) (raw : string) :
  payload h c = Ret raw ->
  exists text,
    email_message h (subject c) (body c) = Ret text /\ raw = encodedMessage text.
Proof.
  unfold payload. destruct (email_message h (subject c) (body c)) as [text|e];
    cbn [bindR]; intros E; [|discriminate].
  exists text. split; [reflexivity | congruence].
Qed.

(** [${event.type}] where it can be printed. *)
Lemma event_type_text_run (event : value) (w : World) :
  nullish event = false ->
  printable (prop event "type") = true ->
  event_type_text h event w = (w, Returns (type_text h event)).
Proof.
  intros N P. unfold event_type_text, event_type, bind, lift.
  rewrite (get_prop _ _ N), (ToString_text _ _ P). reflexivity.
Qed.

Lemma monitored_printable (type : value) :
  monitored type = true -> printable type = true.
Proof. destruct type; cbn; intros H; (discriminate || reflexivity). Qed.

(** Line 160 reached from line 142: [req.body] is [undefined] or [null]. *)
Lemma handle_no_event (event : value) (w : World) :
  nullish event = true ->
  handle h g event w
  = (appends h w ["Webhook error: " ++ message (TypeError_read event "type")],
     Returns (WebhookError (message (TypeError_read event "type")))).
Proof.
  intros N. unfold handle, event_type_text, try_catch, bind, event_type, lift, ret.
  rewrite (get_nullish _ _ N). log_step. reflexivity.
Qed.

(** Line 160 reached from line 142: [event.type] has no string. *)
Lemma handle_type_unprintable (event : value) (w : World) :
  nullish event = false ->
  printable (prop event "type") = false ->
  handle h g event w
  = (appends h w ["Webhook error: " ++ message TypeError_convert],
     Returns (WebhookError (message TypeError_convert))).
Proof.
  intros N P. unfold handle, event_type_text, try_catch, bind, event_type, lift, ret.
  rewrite (get_prop _ _ N), (ToString_unprintable _ _ P). log_step. reflexivity.
Qed.

(** Unfold the handler up to the test of line 145. *)
Ltac enter_handle N P :=
  unfold handle, render, try_catch, bind;
  rewrite (event_type_text_run _ _ N P);
  log_step;
  unfold event_type, lift, ret; rewrite (get_prop _ _ N);
  cbv beta iota;
  match goal with
  | |- context [strict_eq_string ?t "charge.failed"
                || strict_eq_string ?t "invoice.payment_failed"] =>
      fold (monitored t)
  end.

(** Lines 154-156: an event type that is not monitored. *)
Lemma handle_ignored (event : value) (w : World) :
  nullish event = false ->
  printable (prop event "type") = true ->
  monitored (prop event "type") = false ->
  handle h g event w
  = (appends h w [ "Received webhook: " ++ type_text h event;
                   "Ignored webhook event: " ++ type_text h event ],
     Returns Ignored).
Proof.
  intros N P K. enter_handle N P. rewrite K.
  rewrite (event_type_text_run _ _ N P).
  log_step. rewrite appends_appends. reflexivity.
Qed.

(** Lines 150-153 reached from line 147: the renderer throws. *)
Lemma handle_render_throws (event : value) (w : World) (e : Error) :
  nullish event = false ->
  monitored (prop event "type") = true ->
  formatFailureEmail h event = Throw e ->
  handle h g event w
  = (appends h w [ "Received webhook: " ++ type_text h event;
                   "Failed to send notification for " ++ type_text h event
                     ++ ": " ++ message e ],
     Returns (Failed (message e))).
Proof.
  intros N K F. pose proof (monitored_printable _ K) as P.
  enter_handle N P. rewrite K, F.
  rewrite (event_type_text_run _ _ N P).
  log_step. rewrite appends_appends. reflexivity.
Qed.

(** Lines 147-149 and 158: rendered and delivered. *)
Lemma handle_processed
  (event : value) (w : World) (c : NotificationContent) (raw : string) :
  nullish event = false ->
  monitored (prop event "type") = true ->
  formatFailureEmail h event = Ret c ->
  payload h c = Ret raw ->
  messages_send g (List.length (sent w)) raw = Accepts ->
  handle h g event w
  = (record_send raw
       (appends h w
          [ "Received webhook: " ++ type_text h event;
            "Email sent successfully to blakeecom02@gmail.com";
            "Payment failure notification sent for event: "
              ++ type_text h event ]),
     Returns Processed).
Proof.
  intros N K F R S. pose proof (monitored_printable _ K) as P.
  destruct (payload_Ret _ _ R) as (text & E & ->).
  enter_handle N P. rewrite K, F. cbv beta iota.
  rewrite (sendEmail_ok _ _ _ text E) by (now rewrite sent_appends).
  unfold event_type_text, event_type, bind, lift.
  rewrite (get_prop _ _ N), (ToString_text _ _ P). fold (type_text h event).
  log_step. rewrite appends_record_send, !appends_appends. reflexivity.
Qed.

(** Lines 150-153 reached from line 148: rendered, delivery rejected. *)
Lemma handle_delivery_fails
  (event : value) (w : World) (c : NotificationContent) (raw : string)
  (e : Error) :
  nullish event = false ->
  monitored (prop event "type") = true ->
  formatFailureEmail h event = Ret c ->
  payload h c = Ret raw ->
  messages_send g (List.length (sent w)) raw = Rejects e ->
  handle h g event w
  = (record_send raw
       (appends h w
          [ "Received webhook: " ++ type_text h event;
            "Failed to send email: " ++ message e;
            "Failed to send notification for " ++ type_text h event
              ++ ": " ++ message e ]),
     Returns (Failed (message e))).
Proof.
  intros N K F R S. pose proof (monitored_printable _ K) as P.
  destruct (payload_Ret _ _ R) as (text & E & ->).
  enter_handle N P. rewrite K, F. cbv beta iota.
  rewrite (sendEmail_rejected _ _ _ text e E) by (now rewrite sent_appends).
  unfold event_type_text, event_type, bind, lift.
  rewrite (get_prop _ _ N), (ToString_text _ _ P). fold (type_text h event).
  log_step. rewrite appends_record_send, !appends_appends. reflexivity.
Qed.

(** Line 148 and no further: rendered, and the API never answers. *)
Lemma handle_pending
  (event : value) (w : World) (c : NotificationContent) (raw : string) :
  nullish event = false ->
  monitored (prop event "type") = true ->
  formatFailureEmail h event = Ret c ->
  payload h c = Ret raw ->
  messages_send g (List.length (sent w)) raw = NeverSettles ->
  handle h g event w
  = (record_send raw (appends h w ["Received webhook: " ++ type_text h event]),
     Pending).
Proof.
  intros N K F R S. pose proof (monitored_printable _ K) as P.
  destruct (payload_Ret _ _ R) as (text & E & ->).
  enter_handle N P. rewrite K, F. cbv beta iota.
  rewrite (sendEmail_pending _ _ _ text E) by (now rewrite sent_appends).
  reflexivity.
Qed.

End Handler.

(* ================================================================== *)
(** ** The pipeline *)

(** What the renderer returns for a monitored event is a pair of strings,
    from which the message of [sendEmail] can always be built. *)
Lemma rendered_strings (h : Host) (event : value) (c : NotificationContent) :
  monitored (prop event "type") = true ->
  formatFailureEmail h event = Ret c ->
  exists subject body, c = mkContent (VStr subject) (VStr body).
Proof.
  intros K F. unfold formatFailureEmail in F.
  destruct (nullish event) eqn:N; [discriminate F|].
  rewrite !(get_prop _ _ N) in F. cbn [bindR] in F. unfold monitored in K.
  destruct (strict_eq_string (prop event "type") "charge.failed");
    [|destruct (strict_eq_string (prop event "type") "invoice.payment_failed");
      [|discriminate K]];
    repeat match type of F with
           | bindR ?r _ = Ret _ =>
               destruct r; cbn [bindR] in F; [|discriminate F]
           end;
    injection F as <-; eauto.
Qed.

Lemma rendered_has_payload (h : Host) (event : value) (c : NotificationContent) :
  monitored (prop event "type") = true ->
  formatFailureEmail h event = Ret c ->
  exists raw, payload h c = Ret raw.
Proof.
  intros K F. destruct (rendered_strings h event c K F) as (s & b & ->).
  rewrite payload_strings. eauto.
Qed.

Lemma appended_length (h : Host) (w w' : World) (ms : list string) :
  appended h w w' ms ->
  (List.length (logs w) + List.length ms <= 100)%nat ->
  List.length (logs w') = (List.length (logs w) + List.length ms)%nat.
Proof.
  unfold appended. intros -> H.
  rewrite length_logs_appends by lia. lia.
Qed.

Lemma appended_messages (h : Host) (w w' : World) (ms : list string) :
  appended h w w' ms ->
  (List.length (logs w) <= 100)%nat ->
  messages w' = slice_last 100 (messages w ++ ms).
Proof.
  unfold appended, messages at 1. intros -> H.
  now apply messages_appends.
Qed.

(** C1, as the code has it.  For every event that is not [undefined] or
    [null]:
    - when its [type] has no string (an object with an own property
      [toString], such as [{"toString": 1}]), line 142 throws before
      anything is logged and the outer [catch] appends the one entry
      [Webhook error: Cannot convert object to primitive value]; there is no
      [Received] entry.
    Otherwise, with [T] the text of the type (what [ToString] makes of it),
    the handler first appends the
    entry [Received webhook: T], once, and then
    - on the Ignored exit (every type that is neither [charge.failed] nor
      [invoice.payment_failed]) exactly one more entry,
      [Ignored webhook event: T]: two entries in all;
    - on the Processed exit exactly two more, the notifier's
      [Email sent successfully to ...] and
      [Payment failure notification sent for event: T]: three in all;
    - on the Failed exit after a rejected delivery exactly two more, the
      notifier's [Failed to send email: d] and
      [Failed to send notification for T: d]: three in all;
    - on the Failed exit after a rendering error exactly one more,
      [Failed to send notification for T: d]: two in all;
    - and nothing more for as long as the Gmail API has not answered: the
      handler stays at line 148 with the one entry.
    While the log has room, its length grows by the number of entries
    appended. *)
Theorem handle_log_entries (h : Host) (g : Gmail) (event : value) (w : World) :
  nullish event = false ->
  let T := type_text h event in
  let received := "Received webhook: " ++ T in
  (printable (prop event "type") = false ->
   exists w',
     handle h g event w
     = (w', Returns (WebhookError "Cannot convert object to primitive value"))
     /\ appended h w w'
          ["Webhook error: Cannot convert object to primitive value"])
  /\ (printable (prop event "type") = true ->
      ToString h (prop event "type") = Ret T)
  /\ (printable (prop event "type") = true ->
      monitored (prop event "type") = false ->
      exists w',
        handle h g event w = (w', Returns Ignored)
        /\ appended h w w' [received; "Ignored webhook event: " ++ T])
  /\ (forall c raw,
        monitored (prop event "type") = true ->
        formatFailureEmail h event = Ret c ->
        payload h c = Ret raw ->
        messages_send g (List.length (sent w)) raw = Accepts ->
        exists w',
          handle h g event w = (w', Returns Processed)
          /\ appended h w w'
               [ received;
                 "Email sent successfully to blakeecom02@gmail.com";
                 "Payment failure notification sent for event: " ++ T ])
  /\ (forall c raw e,
        monitored (prop event "type") = true ->
        formatFailureEmail h event = Ret c ->
        payload h c = Ret raw ->
        messages_send g (List.length (sent w)) raw = Rejects e ->
        exists w',
          handle h g event w = (w', Returns (Failed (message e)))
          /\ appended h w w'
               [ received;
                 "Failed to send email: " ++ message e;
                 "Failed to send notification for " ++ T ++ ": " ++ message e ])
  /\ (forall e,
        monitored (prop event "type") = true ->
        formatFailureEmail h event = Throw e ->
        exists w',
          handle h g event w = (w', Returns (Failed (message e)))
          /\ appended h w w'
               [ received;
                 "Failed to send notification for " ++ T ++ ": " ++ message e ])
  /\ (forall c raw,
        monitored (prop event "type") = true ->
        formatFailureEmail h event = Ret c ->
        payload h c = Ret raw ->
        messages_send g (List.length (sent w)) raw = NeverSettles ->
        exists w',
          handle h g event w = (w', Pending)
          /\ appended h w w' [received])
  /\ (forall w' ms,
        appended h w w' ms ->
        (List.length (logs w) + List.length ms <= 100)%nat ->
        List.length (logs w') = (List.length (logs w) + List.length ms)%nat).
Proof.
  intros N T received. subst T received. repeat split.
  - intros P. eexists.
    split; [apply (handle_type_unprintable h g event w N P)|]. reflexivity.
  - apply ToString_text.
  - intros P K. eexists. split; [apply (handle_ignored h g event w N P K)|].
    reflexivity.
  - intros c raw K F R S. eexists.
    split; [apply (handle_processed h g event w c raw N K F R S)|]. reflexivity.
  - intros c raw e K F R S. eexists.
    split; [apply (handle_delivery_fails h g event w c raw e N K F R S)|].
    reflexivity.
  - intros e K F. eexists.
    split; [apply (handle_render_throws h g event w e N K F)|]. reflexivity.
  - intros c raw K F R S. eexists.
    split; [apply (handle_pending h g event w c raw N K F R S)|]. reflexivity.
  - intros w' ms. apply appended_length.
Qed.

(** The handler on the event of scenario C, [customer.created], and on the
    charge of scenario A with a notifier that succeeds, both from the empty
    log: the first is ignored and leaves two entries in the log, not one;
    the second is processed and leaves three, not two. *)
Lemma handle_appends_more_than_claimed :
  let ignored := handle Sample.host Sample.gmail_ok Sample.customer_created empty_world in
  let processed := handle Sample.host Sample.gmail_ok Sample.charge_failed empty_world in
  snd ignored = Returns Ignored
  /\ messages (fst ignored)
     = [ "Received webhook: customer.created";
         "Ignored webhook event: customer.created" ]
  /\ List.length (logs (fst ignored)) = 2%nat
  /\ List.length (logs (fst ignored)) <> (List.length (logs empty_world) + 1)%nat
  /\ snd processed = Returns Processed
  /\ messages (fst processed)
     = [ "Received webhook: charge.failed";
         "Email sent successfully to blakeecom02@gmail.com";
         "Payment failure notification sent for event: charge.failed" ]
  /\ List.length (logs (fst processed)) = 3%nat
  /\ List.length (logs (fst processed)) <> (List.length (logs empty_world) + 2)%nat.
Proof. vm_compute. repeat split; intros E; discriminate E. Qed.

Lemma handle_log_entries_witness :
  (exists w',
     handle Sample.host Sample.gmail_ok Sample.customer_created empty_world
     = (w', Returns Ignored)
     /\ appended Sample.host empty_world w'
          [ "Received webhook: customer.created";
            "Ignored webhook event: customer.created" ])
  /\ (exists w',
        handle Sample.host Sample.gmail_ok Sample.charge_failed empty_world
        = (w', Returns Processed)
        /\ appended Sample.host empty_world w'
             [ "Received webhook: charge.failed";
               "Email sent successfully to blakeecom02@gmail.com";
               "Payment failure notification sent for event: charge.failed" ]).
Proof.
  split.
  - apply (proj1 (proj2 (proj2 (handle_log_entries Sample.host Sample.gmail_ok
                                  Sample.customer_created empty_world eq_refl))));
      reflexivity.
  - apply (proj1 (proj2 (proj2 (proj2
             (handle_log_entries Sample.host Sample.gmail_ok
                Sample.charge_failed empty_world eq_refl))))
             (match formatFailureEmail Sample.host Sample.charge_failed with
              | Ret c => c
              | Throw _ => NotApplicable
              end)
             (match payload Sample.host
                      (match formatFailureEmail Sample.host Sample.charge_failed with
                       | Ret c => c
                       | Throw _ => NotApplicable
                       end) with
              | Ret raw => raw
              | Throw _ => EmptyString
              end));
      reflexivity.
Defined.

Lemma messages_record_send (raw : string) (w : World) :
  messages (record_send raw w) = messages w.
Proof. reflexivity. Qed.

Lemma type_text_of (h : Host) (event : value) (type : string) :
  prop event "type" = VStr type -> type_text h event = type.
Proof. unfold type_text. now intros ->. Qed.

(** C6.  A [charge.failed] event is rendered and the Gmail API rejects the
    message, whose payload is [raw], with an error whose message is [d].
    Then the handler returns [Failed d] (answered with status 500), the
    final entry of the log is
    [Failed to send notification for charge.failed: d], and the API was
    called exactly once for this event: there is no second attempt, whatever
    the API would have answered to one.  (What is rendered always has a
    payload: [rendered_has_payload].) *)
Theorem delivery_failure_reported_once
  (h : Host) (g : Gmail) (event : value) (w : World)
  (c : NotificationContent) (raw : string) (e : Error) :
  get event "type" = Ret (VStr "charge.failed") ->
  formatFailureEmail h event = Ret c ->
  payload h c = Ret raw ->
  messages_send g (List.length (sent w)) raw = Rejects e ->
  exists w',
    handle h g event w = (w', Returns (Failed (message e)))
    /\ last (messages w') EmptyString
       = "Failed to send notification for charge.failed: " ++ message e
    /\ sent w' = (sent w ++ [raw])%list
    /\ status (respond (Failed (message e))) = 500%nat.
Proof.
  intros Ty F R S. apply get_Ret_nonnullish in Ty as [N Ty].
  assert (K : monitored (prop event "type") = true) by now rewrite Ty.
  eexists. split; [apply (handle_delivery_fails h g event w c raw e N K F R S)|].
  rewrite (type_text_of h event _ Ty).
  split; [|split; [|reflexivity]].
  - rewrite messages_record_send.
    apply (last_message_appends h w
             [ "Received webhook: charge.failed";
               "Failed to send email: " ++ message e ]).
  - cbn [record_send sent]. now rewrite sent_appends.
Qed.

Lemma delivery_failure_reported_once_witness :
  exists w',
    handle Sample.host (Sample.gmail_failing "quota exceeded")
      Sample.charge_failed empty_world
    = (w', Returns (Failed "quota exceeded"))
    /\ last (messages w') EmptyString
       = "Failed to send notification for charge.failed: quota exceeded"
    /\ List.length (sent w') = 1%nat.
Proof.
  destruct (delivery_failure_reported_once
              Sample.host (Sample.gmail_failing "quota exceeded")
              Sample.charge_failed empty_world
              (match formatFailureEmail Sample.host Sample.charge_failed with
               | Ret c => c
               | Throw _ => NotApplicable
               end)
              (match payload Sample.host
                       (match formatFailureEmail Sample.host Sample.charge_failed with
                        | Ret c => c
                        | Throw _ => NotApplicable
                        end) with
               | Ret raw => raw
               | Throw _ => EmptyString
               end)
              (mkError "quota exceeded") eq_refl eq_refl eq_refl eq_refl)
    as (w' & H & L & S & _).
  exists w'. split; [exact H|]. split; [exact L|].
  rewrite S. reflexivity.
Defined.

(** The handler, whatever it is given: the seven ways it can go. *)
Lemma handle_cases (h : Host) (g : Gmail) (event : value) (w : World) :
  (nullish event = true
   /\ handle h g event w
      = (appends h w ["Webhook error: " ++ message (TypeError_read event "type")],
         Returns (WebhookError (message (TypeError_read event "type")))))
  \/ (nullish event = false /\ printable (prop event "type") = false
      /\ handle h g event w
         = (appends h w ["Webhook error: " ++ message TypeError_convert],
            Returns (WebhookError (message TypeError_convert))))
  \/ (nullish event = false /\ printable (prop event "type") = true
      /\ monitored (prop event "type") = false
      /\ handle h g event w
         = (appends h w [ "Received webhook: " ++ type_text h event;
                          "Ignored webhook event: " ++ type_text h event ],
            Returns Ignored))
  \/ (exists e,
        nullish event = false /\ monitored (prop event "type") = true
        /\ formatFailureEmail h event = Throw e
        /\ handle h g event w
           = (appends h w [ "Received webhook: " ++ type_text h event;
                            "Failed to send notification for "
                              ++ type_text h event ++ ": " ++ message e ],
              Returns (Failed (message e))))
  \/ (exists c raw,
        nullish event = false /\ monitored (prop event "type") = true
        /\ formatFailureEmail h event = Ret c /\ payload h c = Ret raw
        /\ messages_send g (List.length (sent w)) raw = Accepts
        /\ handle h g event w
           = (record_send raw
                (appends h w
                   [ "Received webhook: " ++ type_text h event;
                     "Email sent successfully to blakeecom02@gmail.com";
                     "Payment failure notification sent for event: "
                       ++ type_text h event ]),
              Returns Processed))
  \/ (exists c raw e,
        nullish event = false /\ monitored (prop event "type") = true
        /\ formatFailureEmail h event = Ret c /\ payload h c = Ret raw
        /\ messages_send g (List.length (sent w)) raw = Rejects e
        /\ handle h g event w
           = (record_send raw
                (appends h w
                   [ "Received webhook: " ++ type_text h event;
                     "Failed to send email: " ++ message e;
                     "Failed to send notification for " ++ type_text h event
                       ++ ": " ++ message e ]),
              Returns (Failed (message e))))
  \/ (exists c raw,
        nullish event = false /\ monitored (prop event "type") = true
        /\ formatFailureEmail h event = Ret c /\ payload h c = Ret raw
        /\ messages_send g (List.length (sent w)) raw = NeverSettles
        /\ handle h g event w
           = (record_send raw
                (appends h w ["Received webhook: " ++ type_text h event]),
              Pending)).
Proof.
  destruct (nullish event) eqn:N.
  { left. split; [reflexivity|]. apply (handle_no_event h g event w N). }
  destruct (printable (prop event "type")) eqn:P.
  2:{ right; left. repeat split. apply (handle_type_unprintable h g event w N P). }
  destruct (monitored (prop event "type")) eqn:K.
  2:{ right; right; left. repeat split. apply (handle_ignored h g event w N P K). }
  destruct (formatFailureEmail h event) as [c|e] eqn:F.
  2:{ right; right; right; left. exists e. repeat split.
      apply (handle_render_throws h g event w e N K F). }
  destruct (rendered_has_payload h event c K F) as [raw R].
  destruct (messages_send g (List.length (sent w)) raw) as [|e|] eqn:S.
  - right; right; right; right; left. exists c, raw. repeat split; try assumption.
    apply (handle_processed h g event w c raw N K F R S).
  - right; right; right; right; right; left. exists c, raw, e.
    repeat split; try assumption.
    apply (handle_delivery_fails h g event w c raw e N K F R S).
  - right; right; right; right; right; right. exists c, raw.
    repeat split; try assumption.
    apply (handle_pending h g event w c raw N K F R S).
Qed.

(** C7, as the code has it.  For every request body, [undefined] and [null]
    included, whatever the Gmail API does and whatever the state of the
    process, no exception leaves the handler; and the handler completes,
    with a [ProcessingResult] and a response, in every case but one: the
    event is rendered and the Gmail API never answers the call (no timeout
    is set), where the handler stays suspended at line 148.  An error thrown
    by the renderer, and an error with which the Gmail API rejects the
    message, are both caught at lines 150-153 and turned into [Failed] with
    the error's message, which the final log entry records; the TypeError of
    a missing body, or of a [type] that has no string, is caught at lines
    159-162. *)
Theorem handle_never_throws (h : Host) (g : Gmail) (event : value) (w : World) :
  exists w' o,
    handle h g event w = (w', o)
    /\ (forall e, o <> Throws e)
    /\ (o = Pending
        <-> exists c raw,
              nullish event = false
              /\ monitored (prop event "type") = true
              /\ formatFailureEmail h event = Ret c
              /\ payload h c = Ret raw
              /\ messages_send g (List.length (sent w)) raw = NeverSettles)
    /\ webhook h g event w
       = (w', match o with
              | Returns r => Returns (respond r)
              | Throws e => Throws e
              | Pending => Pending
              end)
    /\ (forall e,
          nullish event = false ->
          monitored (prop event "type") = true ->
          formatFailureEmail h event = Throw e
          \/ (exists c raw,
                formatFailureEmail h event = Ret c
                /\ payload h c = Ret raw
                /\ messages_send g (List.length (sent w)) raw = Rejects e) ->
          o = Returns (Failed (message e))
          /\ last (messages w') EmptyString
             = "Failed to send notification for "
               ++ type_text h event ++ ": " ++ message e)
    /\ (nullish event = true \/ printable (prop event "type") = false ->
        exists detail,
          o = Returns (WebhookError detail)
          /\ last (messages w') EmptyString = "Webhook error: " ++ detail).
Proof.
  assert (W : forall w' o, handle h g event w = (w', o) ->
                           webhook h g event w
                           = (w', match o with
                                  | Returns r => Returns (respond r)
                                  | Throws e => Throws e
                                  | Pending => Pending
                                  end)).
  { intros w' o H. unfold webhook, bind. rewrite H. now destruct o. }
  assert (L1 : forall m, last (messages (appends h w [m])) EmptyString = m).
  { intros m. apply (last_message_appends h w []). }
  destruct (handle_cases h g event w)
    as [(N & H) | [(N & P & H) | [(N & P & K & H) | [(e0 & N & K & F & H)
       | [(c & raw & N & K & F & R & S & H) | [(c & raw & e0 & N & K & F & R & S & H)
       | (c & raw & N & K & F & R & S & H)]]]]]];
    do 2 eexists; (split; [exact H|]); (split; [discriminate|]);
    (split; [|split; [exact (W _ _ H)|]]).
  - (* no body *)
    split; [discriminate|]. intros (c & raw & N' & _). congruence.
  - split.
    + intros e N'. congruence.
    + intros _. eexists. split; [reflexivity | apply L1].
  - (* a type without a string *)
    split; [discriminate|]. intros (c & raw & _ & K' & _).
    pose proof (monitored_printable _ K'). congruence.
  - split.
    + intros e _ K'. pose proof (monitored_printable _ K'). congruence.
    + intros _. eexists. split; [reflexivity | apply L1].
  - (* ignored *)
    split; [discriminate|]. intros (c & raw & _ & K' & _). congruence.
  - split.
    + intros e _ K'. congruence.
    + intros [N'|P']; congruence.
  - (* the renderer throws *)
    split; [discriminate|]. intros (c & raw & _ & _ & F' & _). congruence.
  - pose proof (monitored_printable _ K) as P. split.
    + intros e _ _ [E|(c & raw & E & _)]; [|congruence].
      rewrite F in E. injection E as <-. split; [reflexivity|].
      apply (last_message_appends h w
               [ "Received webhook: " ++ type_text h event ]).
    + intros [N'|P']; congruence.
  - (* delivered *)
    split; [discriminate|]. intros (c' & raw' & _ & _ & F' & R' & S').
    rewrite F in F'. injection F' as <-. rewrite R in R'. injection R' as <-.
    congruence.
  - pose proof (monitored_printable _ K) as P. split.
    + intros e _ _ [E|(c' & raw' & F' & R' & S')]; [congruence|].
      rewrite F in F'. injection F' as <-. rewrite R in R'. injection R' as <-.
      congruence.
    + intros [N'|P']; congruence.
  - (* rejected *)
    split; [discriminate|]. intros (c' & raw' & _ & _ & F' & R' & S').
    rewrite F in F'. injection F' as <-. rewrite R in R'. injection R' as <-.
    congruence.
  - pose proof (monitored_printable _ K) as P. split.
    + intros e _ _ [E|(c' & raw' & F' & R' & S')]; [congruence|].
      rewrite F in F'. injection F' as <-. rewrite R in R'. injection R' as <-.
      rewrite S in S'. injection S' as <-. split; [reflexivity|].
      rewrite messages_record_send.
      apply (last_message_appends h w
               [ "Received webhook: " ++ type_text h event;
                 "Failed to send email: " ++ message e0 ]).
    + intros [N'|P']; congruence.
  - (* never answered *)
    split; [intros _; exists c, raw; repeat split; assumption | reflexivity].
  - pose proof (monitored_printable _ K) as P. split.
    + intros e _ _ [E|(c' & raw' & F' & R' & S')]; [congruence|].
      rewrite F in F'. injection F' as <-. rewrite R in R'. injection R' as <-.
      congruence.
    + intros [N'|P']; congruence.
Qed.

Lemma handle_never_throws_witness :
  exists w' o,
    handle Sample.host Sample.gmail_ok Sample.charge_without_currency empty_world
    = (w', o)
    /\ o = Returns
             (Failed "Cannot read properties of undefined (reading 'toUpperCase')").
Proof.
  destruct (handle_never_throws Sample.host Sample.gmail_ok
              Sample.charge_without_currency empty_world)
    as (w' & o & H & _ & _ & _ & F & _).
  exists w', o. split; [exact H|].
  apply (F (mkError "Cannot read properties of undefined (reading 'toUpperCase')")
           eq_refl eq_refl (or_introl eq_refl)).
Defined.

(** The charge of scenario A and a Gmail API that never answers: the
    handler logs the receipt, makes the call and gets no further; it
    returns no [ProcessingResult] and the request gets no response. *)
Lemma handle_suspended_by_silent_api :
  let run := handle Sample.host Sample.gmail_silent Sample.charge_failed empty_world in
  snd run = Pending
  /\ messages (fst run) = ["Received webhook: charge.failed"]
  /\ List.length (sent (fst run)) = 1%nat
  /\ snd (webhook Sample.host Sample.gmail_silent Sample.charge_failed empty_world)
     = Pending.
Proof. vm_compute. repeat split. Qed.

(* ================================================================== *)
(** ** Digits and [toFixed] *)

Section Digits.









(** On whole amounts of minor units the double division and the rounding of
    [toFixed(2)] lose nothing: every amount from 0 to 1999, and some larger
    ones, print as exactly that many hundredths. *)
Lemma toFixed_prints_cents_exactly (h : Host) :
  forallb (fun n => String.eqb (toFixed h 2 (float_of_cents n / 100))
                               (cents_numeral n))
          (map Z.of_nat (seq 0 2000)
           ++ [2599; 123456; 99999999; 1000000000005; 7000000000000001]%Z)%list
  = true.
Proof. vm_compute. reflexivity. Qed.

End Digits.

(* ================================================================== *)
(** ** Templates *)

Lemma contains_template (lines : list string) (line : string) :
  In line lines -> contains (template lines) line.
Proof.
  unfold template. induction lines as [|x [|y rest] IH]; cbn [In]; intros H.
  - contradiction.
  - destruct H as [->|[]]. cbn. apply contains_refl.
  - change (String.concat Str.nl (x :: y :: rest))
      with (x ++ Str.nl ++ String.concat Str.nl (y :: rest)).
    destruct H as [->|H].
    + apply contains_app_l, contains_refl.
    + apply contains_app_r, contains_app_r, IH, H.
Qed.

Lemma contains_trans (a b c : string) :
  contains a b -> contains b c -> contains a c.
Proof.
  intros (p & q & ->) (p' & q' & ->).
  exists (p ++ p'), (q' ++ q). now rewrite !append_assoc.
Qed.

(** A line of a template contains every piece it is concatenated from. *)
Lemma contains_in_line (lines : list string) (line piece : string) :
  In line lines -> contains line piece -> contains (template lines) piece.
Proof.
  intros H P. eapply contains_trans; [apply contains_template, H | exact P].
Qed.

(* ================================================================== *)
(** ** The renderer *)

(** Resolve the property reads of [formatFailureEmail] on an event whose
    [type], [data] and [data.object] are known. *)
Ltac resolve_reads Hty Hdata Hobj Nobj :=
  unfold formatFailureEmail;
  rewrite (proj1 (get_Ret_nonnullish _ _ _ Hty)), Hty, Hdata;
  cbv beta iota delta [bindR];
  repeat match goal with
    | |- context [strict_eq_string (VStr ?a) ?b] =>
        let v := eval vm_compute in (strict_eq_string (VStr a) b) in
        change (strict_eq_string (VStr a) b) with v
    end;
  cbv beta iota;
  rewrite Hobj; cbv beta iota;
  rewrite !(get_prop _ _ Nobj); cbv beta iota.

Lemma fields_printable_In (type : string) (object : value) (k : string) :
  fields_printable type object = true ->
  In k (fields_read type) ->
  printable (prop object k) = true.
Proof.
  unfold fields_printable. intros H. exact (proj1 (forallb_forall _ _) H k).
Qed.

(** Resolve the conversions of the fields of [data.object], all of which
    have a string and a number by [P]. *)
Ltac convert P :=
  repeat match goal with
    | |- context [ToString ?h0 (or_else (prop ?o ?k) (VStr ?d))] =>
        rewrite (ToString_text h0 (or_else (prop o k) (VStr d)))
          by (rewrite printable_or_else;
              apply (fields_printable_In _ _ k P); vm_compute; tauto)
    | |- context [ToString ?h0 (prop ?o ?k)] =>
        rewrite (ToString_text h0 (prop o k))
          by (apply (fields_printable_In _ _ k P); vm_compute; tauto)
    | |- context [ToNumber ?h0 (prop ?o ?k)] =>
        rewrite (ToNumber_number h0 (prop o k))
          by (apply (fields_printable_In _ _ k P); vm_compute; tauto)
    end;
  cbv beta iota.

(** Pick a line of a template by its position. *)
Tactic Notation "line" integer(n) :=
  eapply contains_in_line;
  [ cbn [In]; do n right; left; reflexivity | ].

(** Decide a [contains] between closed strings by evaluation. *)
Ltac by_search := apply isInfix_contains; vm_compute; reflexivity.

Lemma prop_string_nonnullish (o : value) (k s : string) :
  prop o k = VStr s -> nullish o = false.
Proof. unfold prop. now destruct o. Qed.

(** A property that an object does not have reads as [undefined]. *)
Lemma prop_absent (fields : list (string * value)) (k : string) :
  ~ In k (map fst fields) -> prop (VObj fields) k = VUndefined.
Proof.
  unfold prop. cbn [get]. induction fields as [|[k' v] rest IH]; cbn; intros H.
  - reflexivity.
  - destruct (String.eqb k' k) eqn:E.
    + apply String.eqb_eq in E. tauto.
    + apply IH. tauto.
Qed.






(** The renderer on a charge whose payload lacks [currency]: a TypeError,
    which the handler reports as [Failed] without calling the Gmail API.
    And on the charge of scenario A with the object [{"toString": 1}] as
    its [customer]: the TypeError of the conversion at line 72. *)
Lemma render_throws_without_currency :
  formatFailureEmail Sample.host Sample.charge_without_currency
  = Throw (mkError "Cannot read properties of undefined (reading 'toUpperCase')")
  /\ snd (handle Sample.host Sample.gmail_ok Sample.charge_without_currency
            empty_world)
     = Returns
         (Failed "Cannot read properties of undefined (reading 'toUpperCase')")
  /\ sent (fst (handle Sample.host Sample.gmail_ok
                  Sample.charge_without_currency empty_world)) = []
  /\ formatFailureEmail Sample.host Sample.charge_customer_without_text
     = Throw (mkError "Cannot convert object to primitive value").
Proof. vm_compute. repeat split. Qed.

(** What a rendered event of a monitored type must have: a string
    [currency], and a string and a number for every field the renderer
    reads. *)
Lemma rendered_requires
  (h : Host) (event data object : value) (type : string)
  (c : NotificationContent) :
  get event "type" = Ret (VStr type) ->
  type = "charge.failed" \/ type = "invoice.payment_failed" ->
  get event "data" = Ret data ->
  get data "object" = Ret object ->
  formatFailureEmail h event = Ret c ->
  (exists currency, prop object "currency" = VStr currency)
  /\ fields_printable type object = true.
Proof.
  intros Hty Known Hdata Hobj F. revert F.
  unfold formatFailureEmail.
  rewrite (proj1 (get_Ret_nonnullish _ _ _ Hty)), Hty, Hdata.
  cbv beta iota delta [bindR].
  destruct (nullish object) eqn:N.
  { destruct Known as [-> | ->];
      repeat match goal with
        | |- context [strict_eq_string (VStr ?a) ?b] =>
            let v := eval vm_compute in (strict_eq_string (VStr a) b) in
            change (strict_eq_string (VStr a) b) with v
        end; cbv beta iota; rewrite Hobj; cbv beta iota;
      rewrite (get_nullish _ _ N); intros F; discriminate F. }
  destruct Known as [-> | ->];
    repeat match goal with
      | |- context [strict_eq_string (VStr ?a) ?b] =>
          let v := eval vm_compute in (strict_eq_string (VStr a) b) in
          change (strict_eq_string (VStr a) b) with v
      end; cbv beta iota; rewrite Hobj; cbv beta iota;
    rewrite !(get_prop _ _ N); cbv beta iota;
    rewrite ?ToString_decided, ?ToNumber_decided, ?printable_or_else;
    unfold fields_printable; cbn [fields_read String.eqb Ascii.eqb Bool.eqb forallb];
    destruct (prop object "currency") eqn:C; cbn [call_toUpperCase];
    repeat match goal with
      | |- context [if printable ?v then _ else _] =>
          let E := fresh "E" in
          destruct (printable v) eqn:E;
          [|try rewrite (unprintable_truthy _ E)];
          cbv beta iota; try (intros F; discriminate F)
      end;
    try (destruct (ToBoolean (prop object "next_payment_attempt"));
         cbv beta iota);
    try (intros F; discriminate F);
    intros _; (split; [eauto | reflexivity]).
Qed.

(** C3, as the code has it.  On an event of one of the two monitored types
    whose [data.object] exists and has a string [currency], and each of
    whose fields that the renderer reads has a string and a number (none is
    an object with an own property [toString], or an array with such an
    element), the renderer returns a subject and a body and raises no
    error, whatever else the payload has or lacks.  The fields with an
    explicit default are, for a charge, [customer] ([Guest]), [failure_code]
    ([Unknown]) and [failure_message] ([No details provided]); for an
    invoice, [number] ([Draft]), [subscription] ([N/A]) and
    [next_payment_attempt] ([No retry scheduled]): the default is shown
    whenever the field is missing ([undefined]), and likewise for any other
    falsy value. *)
Theorem render_total_given_currency
  (h : Host) (event data object : value) (type currency : string) :
  get event "type" = Ret (VStr type) ->
  type = "charge.failed" \/ type = "invoice.payment_failed" ->
  get event "data" = Ret data ->
  get data "object" = Ret object ->
  prop object "currency" = VStr currency ->
  fields_printable type object = true ->
  exists subject body,
    formatFailureEmail h event = Ret (mkContent (VStr subject) (VStr body))
    /\ (type = "charge.failed" ->
        (ToBoolean (prop object "customer") = false ->
         contains body "<p><strong>Customer ID:</strong> Guest</p>")
        /\ (ToBoolean (prop object "failure_code") = false ->
            contains body "<p><strong>Failure Code:</strong> Unknown</p>")
        /\ (ToBoolean (prop object "failure_message") = false ->
            contains body
              "<p><strong>Failure Message:</strong> No details provided</p>"))
    /\ (type = "invoice.payment_failed" ->
        (ToBoolean (prop object "number") = false ->
         contains body "<p><strong>Invoice Number:</strong> Draft</p>")
        /\ (ToBoolean (prop object "subscription") = false ->
            contains body "<p><strong>Subscription ID:</strong> N/A</p>")
        /\ (ToBoolean (prop object "next_payment_attempt") = false ->
            contains body
              "<p><strong>Next Attempt:</strong> No retry scheduled</p>")).
Proof.
  intros Hty Known Hdata Hobj Hc P.
  pose proof (prop_string_nonnullish _ _ _ Hc) as N.
  destruct Known as [-> | ->].
  - resolve_reads Hty Hdata Hobj N. convert P.
    rewrite Hc. cbv beta iota delta [call_toUpperCase].
    do 2 eexists. split; [reflexivity|]. split; [|intros E; discriminate E].
    intros _. unfold or_else. repeat split; intros ->.
    + line 3. by_search.
    + line 4. by_search.
    + line 5. by_search.
  - resolve_reads Hty Hdata Hobj N. convert P.
    rewrite Hc. cbv beta iota delta [call_toUpperCase].
    destruct (ToBoolean (prop object "next_payment_attempt")) eqn:A;
      cbv beta iota;
      do 2 eexists; (split; [reflexivity|]);
      (split; [intros E; discriminate E|]);
      intros _; unfold or_else; repeat split; intros B;
      try discriminate B; try rewrite B.
    + line 4. by_search.
    + line 5. by_search.
    + line 4. by_search.
    + line 5. by_search.
    + line 7. by_search.
Qed.

Lemma render_total_given_currency_witness :
  exists subject body,
    formatFailureEmail Sample.host Sample.invoice_without_retry
    = Ret (mkContent (VStr subject) (VStr body))
    /\ contains body "<p><strong>Invoice Number:</strong> Draft</p>"
    /\ contains body "<p><strong>Subscription ID:</strong> N/A</p>"
    /\ contains body "<p><strong>Next Attempt:</strong> No retry scheduled</p>".
Proof.
  destruct (render_total_given_currency
              Sample.host Sample.invoice_without_retry
              (prop Sample.invoice_without_retry "data")
              (prop (prop Sample.invoice_without_retry "data") "object")
              "invoice.payment_failed" "eur"
              eq_refl (or_intror eq_refl) eq_refl eq_refl eq_refl eq_refl)
    as (subject & body & F & _ & I).
  destruct (I eq_refl) as (A & B & C).
  exists subject, body. split; [exact F|].
  split; [apply A; reflexivity|]. split; [apply B; reflexivity|].
  apply C; reflexivity.
Defined.

(** The event [{"type": {"toString": 1}}]: its type is neither of the two
    monitored ones and the renderer returns [NotApplicable] for it, yet the
    handler does not classify it as ignored.  Line 142 throws while
    printing the type, the outer [catch] logs the one entry
    [Webhook error: ...], and the request is answered with status 500. *)
Lemma type_without_text_not_ignored :
  let run := handle Sample.host Sample.gmail_ok Sample.type_without_text
               empty_world in
  monitored (prop Sample.type_without_text "type") = false
  /\ formatFailureEmail Sample.host Sample.type_without_text = Ret NotApplicable
  /\ snd run = Returns (WebhookError "Cannot convert object to primitive value")
  /\ messages (fst run)
     = ["Webhook error: Cannot convert object to primitive value"]
  /\ status (respond (WebhookError "Cannot convert object to primitive value"))
     = 500%nat.
Proof. vm_compute. repeat split. Qed.

(** C4, as the code has it.  On every event whose [type] is neither
    [charge.failed] nor [invoice.payment_failed] the renderer raises no
    error and returns [NotApplicable], the object whose [subject] and
    [body] are both [undefined], which is no rendered notification (its
    fields are no strings).  The handler classifies such an event as
    ignored, without calling the Gmail API, when its type has a string (it
    is no object with an own property [toString]); otherwise the handler
    fails at line 142, before it classifies the event, and ends in the
    outer [catch] with a [Webhook error], again without calling the API. *)
Theorem unknown_type_not_applicable (h : Host) (event type : value) :
  get event "type" = Ret type ->
  monitored type = false ->
  formatFailureEmail h event = Ret NotApplicable
  /\ (forall s b, NotApplicable <> mkContent (VStr s) (VStr b))
  /\ (printable type = true ->
      forall g w, exists w',
        handle h g event w = (w', Returns Ignored) /\ sent w' = sent w)
  /\ (printable type = false ->
      forall g w, exists w',
        handle h g event w
        = (w', Returns (WebhookError "Cannot convert object to primitive value"))
        /\ sent w' = sent w).
Proof.
  intros Hty K. destruct (get_Ret_nonnullish _ _ _ Hty) as [N P].
  split; [|split; [|split]].
  - unfold formatFailureEmail. rewrite N, Hty, (get_prop _ "data" N).
    cbv beta iota delta [bindR].
    apply orb_false_elim in K as [-> ->]. reflexivity.
  - intros s b E. discriminate E.
  - intros T g w. rewrite <- P in K, T. eexists.
    split; [apply (handle_ignored h g event w N T K)|]. apply sent_appends.
  - intros T g w. rewrite <- P in T. eexists.
    split; [apply (handle_type_unprintable h g event w N T)|]. apply sent_appends.
Qed.

Lemma unknown_type_not_applicable_witness :
  formatFailureEmail Sample.host Sample.customer_created = Ret NotApplicable
  /\ snd (handle Sample.host Sample.gmail_ok Sample.customer_created empty_world)
     = Returns Ignored.
Proof.
  destruct (unknown_type_not_applicable
              Sample.host Sample.customer_created (VStr "customer.created")
              eq_refl eq_refl) as (F & _ & H & _).
  split; [exact F|].
  destruct (H eq_refl Sample.gmail_ok empty_world) as (w' & E & _).
  now rewrite E.
Defined.

(** An invoice whose [next_payment_attempt] is present and is second 0 of
    the epoch: the body says that no retry is scheduled and shows no
    timestamp for that second. *)
Lemma retry_at_epoch_reads_as_no_retry :
  exists subject body,
    formatFailureEmail Sample.host Sample.invoice_retry_at_epoch
    = Ret (mkContent (VStr subject) (VStr body))
    /\ prop (prop (prop Sample.invoice_retry_at_epoch "data") "object")
         "next_payment_attempt" = VNum 0
    /\ isInfix "<p><strong>Next Attempt:</strong> No retry scheduled</p>" body
       = true
    /\ Date_toLocaleString Sample.host (newDate (0 * 1000))
       = "1/1/1970, 12:00:00 AM"
    /\ isInfix (Date_toLocaleString Sample.host (newDate (0 * 1000))) body
       = false.
Proof. do 2 eexists. vm_compute. repeat split. Qed.

(** C8, as the code has it.  A valid [invoice.payment_failed] event:
    [data.object] has a string [currency], and each of its fields that the
    renderer reads has a string and a number (none is an object with an own
    property [toString]).  When [next_payment_attempt] is absent
    ([undefined]), or is any other falsy value ([null], [0]), the body
    states that no retry is scheduled; when it is a number that is not
    zero, the body shows the locale-formatted date whose time value is that
    number of seconds times 1000. *)
Theorem invoice_next_attempt
  (h : Host) (event data invoice : value) (currency : string) :
  get event "type" = Ret (VStr "invoice.payment_failed") ->
  get event "data" = Ret data ->
  get data "object" = Ret invoice ->
  prop invoice "currency" = VStr currency ->
  fields_printable "invoice.payment_failed" invoice = true ->
  exists subject body,
    formatFailureEmail h event = Ret (mkContent (VStr subject) (VStr body))
    /\ (prop invoice "next_payment_attempt" = VUndefined ->
        contains body "<p><strong>Next Attempt:</strong> No retry scheduled</p>")
    /\ (ToBoolean (prop invoice "next_payment_attempt") = false ->
        contains body "<p><strong>Next Attempt:</strong> No retry scheduled</p>")
    /\ (forall seconds,
          prop invoice "next_payment_attempt" = VNum seconds ->
          ToBoolean (VNum seconds) = true ->
          contains body
            ("<p><strong>Next Attempt:</strong> "
             ++ Date_toLocaleString h (newDate (seconds * 1000)) ++ "</p>")).
Proof.
  intros Hty Hdata Hobj Hc P.
  pose proof (prop_string_nonnullish _ _ _ Hc) as N.
  resolve_reads Hty Hdata Hobj N. convert P.
  rewrite Hc. cbv beta iota delta [call_toUpperCase].
  destruct (ToBoolean (prop invoice "next_payment_attempt")) eqn:A;
    cbv beta iota; do 2 eexists; (split; [reflexivity|]); repeat split.
  - intros U. rewrite U in A. discriminate A.
  - intros B. discriminate B.
  - intros seconds E _. line 7. rewrite E.
    change (number h (VNum seconds)) with seconds.
    exists "      ", EmptyString.
    now rewrite append_nil_r.
  - intros _. line 7. by_search.
  - intros _. line 7. by_search.
  - intros seconds E B. rewrite E in A. congruence.
Qed.

Lemma invoice_next_attempt_witness :
  exists subject body,
    formatFailureEmail Sample.host Sample.invoice_with_retry
    = Ret (mkContent (VStr subject) (VStr body))
    /\ contains body
         "<p><strong>Next Attempt:</strong> 11/15/2023, 10:13:20 PM</p>".
Proof.
  destruct (invoice_next_attempt
              Sample.host Sample.invoice_with_retry
              (prop Sample.invoice_with_retry "data")
              (prop (prop Sample.invoice_with_retry "data") "object")
              "eur" eq_refl eq_refl eq_refl eq_refl eq_refl)
    as (subject & body & F & _ & _ & T).
  exists subject, body. split; [exact F|].
  apply (T 1700086400%float eq_refl eq_refl).
Defined.

(** What the handler passes to the Gmail API for a rendered event does not
    depend on the state of the process nor on what the API does. *)
Lemma handle_sends_rendered
  (h : Host) (g : Gmail) (event : value) (c : NotificationContent)
  (raw : string) (w : World) :
  nullish event = false ->
  monitored (prop event "type") = true ->
  formatFailureEmail h event = Ret c ->
  payload h c = Ret raw ->
  sent (fst (handle h g event w)) = (sent w ++ [raw])%list.
Proof.
  intros N K F R.
  destruct (messages_send g (List.length (sent w)) raw) as [|e|] eqn:S.
  - rewrite (handle_processed h g event w c raw N K F R S).
    cbn [fst record_send sent]. now rewrite sent_appends.
  - rewrite (handle_delivery_fails h g event w c raw e N K F R S).
    cbn [fst record_send sent]. now rewrite sent_appends.
  - rewrite (handle_pending h g event w c raw N K F R S).
    cbn [fst record_send sent]. now rewrite sent_appends.
Qed.

(** C9.  Rendering an event leaves the state of the process as it was and
    its result does not depend on that state: rendering the same event a
    second time, right after the first or in any other state, yields the
    same result, subject and body included.  Accordingly the handler hands
    the same message to the Gmail API each time it handles the same rendered
    event. *)
Theorem render_is_pure (h : Host) (event : value) (w w_other : World) :
  let first := render h event w in
  let second := render h event (fst first) in
  fst first = w
  /\ fst second = w
  /\ snd second = snd first
  /\ snd (render h event w_other) = snd first
  /\ (forall g g_other c,
        nullish event = false ->
        monitored (prop event "type") = true ->
        snd first = Returns c ->
        exists raw,
          sent (fst (handle h g event w)) = (sent w ++ [raw])%list
          /\ sent (fst (handle h g_other event w_other))
             = (sent w_other ++ [raw])%list).
Proof.
  cbv zeta. unfold render, lift.
  destruct (formatFailureEmail h event) as [c0|e0] eqn:F; cbn [fst snd];
    repeat split; intros g g_other c N K E; [|discriminate E].
  injection E as <-.
  destruct (rendered_has_payload h event c0 K F) as [raw R].
  exists raw. split; apply (handle_sends_rendered h _ event c0 raw); assumption.
Qed.

Lemma render_is_pure_witness :
  exists raw,
    sent (fst (handle Sample.host Sample.gmail_ok Sample.charge_failed
                 empty_world)) = [raw]
    /\ sent (fst (handle Sample.host (Sample.gmail_failing "quota exceeded")
                    Sample.charge_failed empty_world)) = [raw].
Proof.
  destruct (render_is_pure Sample.host Sample.charge_failed
              empty_world empty_world) as (_ & _ & _ & _ & H).
  exact (H Sample.gmail_ok (Sample.gmail_failing "quota exceeded")
           (match formatFailureEmail Sample.host Sample.charge_failed with
            | Ret c => c
            | Throw _ => NotApplicable
            end)
           eq_refl eq_refl eq_refl).
Defined.

(** An invoice with neither [id] nor [currency]: the renderer throws at
    line 85 and there is no body, with or without a link. *)
Lemma invoice_without_id_not_rendered :
  prop (prop (prop Sample.invoice_without_id_and_currency "data") "object") "id"
  = VUndefined
  /\ formatFailureEmail Sample.host Sample.invoice_without_id_and_currency
     = Throw (mkError "Cannot read properties of undefined (reading 'toUpperCase')").
Proof. vm_compute. split; reflexivity. Qed.

(** C10, as the code has it.  The link at the end of an invoice body is
    built from [data.object.id]: on every [invoice.payment_failed] event
    that is rendered (one whose [data.object] has a string [currency] and
    whose fields read by the renderer have a string and a number), the body
    contains the anchor whose address is the invoice page of the dashboard
    followed by the text of [id], which is [id] itself when that is a
    string.  When the payload has no [id] such an event is rendered all the
    same, and the address ends in the text [undefined]. *)
Theorem invoice_link_from_id
  (h : Host) (event data invoice : value) (currency : string) :
  get event "type" = Ret (VStr "invoice.payment_failed") ->
  get event "data" = Ret data ->
  get data "object" = Ret invoice ->
  prop invoice "currency" = VStr currency ->
  fields_printable "invoice.payment_failed" invoice = true ->
  exists subject body,
    formatFailureEmail h event = Ret (mkContent (VStr subject) (VStr body))
    /\ ToString h (prop invoice "id") = Ret (text h (prop invoice "id"))
    /\ contains body
         ("<a href=" ++ dq ++ "https://dashboard.stripe.com/invoices/"
          ++ text h (prop invoice "id") ++ dq ++ ">Open Invoice</a>")
    /\ (forall id,
          prop invoice "id" = VStr id ->
          contains body
            ("<a href=" ++ dq ++ "https://dashboard.stripe.com/invoices/"
             ++ id ++ dq ++ ">Open Invoice</a>"))
    /\ (prop invoice "id" = VUndefined ->
        contains body
          ("<a href=" ++ dq ++ "https://dashboard.stripe.com/invoices/undefined"
           ++ dq ++ ">Open Invoice</a>")).
Proof.
  intros Hty Hdata Hobj Hc P.
  pose proof (prop_string_nonnullish _ _ _ Hc) as N.
  resolve_reads Hty Hdata Hobj N. convert P.
  rewrite Hc. cbv beta iota delta [call_toUpperCase].
  assert (L : forall id : string,
             contains
               ("      <p><small>View in Stripe Dashboard: <a href=" ++ dq
                ++ "https://dashboard.stripe.com/invoices/" ++ id ++ dq
                ++ ">Open Invoice</a></small></p>")
               ("<a href=" ++ dq ++ "https://dashboard.stripe.com/invoices/"
                ++ id ++ dq ++ ">Open Invoice</a>")).
  { intros id. exists "      <p><small>View in Stripe Dashboard: ", "</small></p>".
    rewrite !append_assoc. reflexivity. }
  destruct (ToBoolean (prop invoice "next_payment_attempt")); cbv beta iota;
    do 2 eexists; (split; [reflexivity|]); (split; [reflexivity|]);
    (split; [line 10; apply L|]);
    (split; [intros id E; line 10; rewrite E; apply (L id)
            |intros E; line 10; rewrite E; apply (L "undefined")]).
Qed.

Lemma invoice_link_from_id_witness :
  exists subject body,
    formatFailureEmail Sample.host Sample.invoice_without_id
    = Ret (mkContent (VStr subject) (VStr body))
    /\ contains body
         ("<a href=" ++ dq ++ "https://dashboard.stripe.com/invoices/undefined"
          ++ dq ++ ">Open Invoice</a>").
Proof.
  destruct (invoice_link_from_id
              Sample.host Sample.invoice_without_id
              (prop Sample.invoice_without_id "data")
              (prop (prop Sample.invoice_without_id "data") "object")
              "eur" eq_refl eq_refl eq_refl eq_refl eq_refl)
    as (subject & body & F & _ & _ & _ & U).
  exists subject, body. split; [exact F|].
  apply U. reflexivity.
Defined.

(** The check of C2 on 105 distinct messages. *)
Lemma activity_log_keeps_last_100_witness :
  let w := appends Sample.host empty_world Sample.messages105 in
  List.length (logs w) = 100%nat
  /\ map entry_message (slice_last 100 (logs w)) = skipn 5 Sample.messages105
  /\ ~ In "message 5" (map entry_message (slice_last 100 (logs w))).
Proof.
  destruct (activity_log_keeps_last_100 Sample.host Sample.messages105 105)
    as (_ & _ & _ & H).
  destruct (H eq_refl) as (L & R & A).
  split; [exact L|]. split; [exact R|].
  apply A.
  - apply nodupb_sound. vm_compute. reflexivity.
  - vm_compute. tauto.
Defined.

(* ================================================================== *)
(** * Further properties of the code *)

(** ** Steps of the log *)

Lemma slice_last_slice_last {A} (n m : nat) (l : list A) :
  (n <= m)%nat -> slice_last n (slice_last m l) = slice_last n l.
Proof.
  intros H. unfold slice_last. rewrite length_skipn, skipn_skipn.
  f_equal. lia.
Qed.

Lemma bounded_messages (w : World) :
  bounded w -> (List.length (messages w) <= 100)%nat.
Proof. unfold bounded, messages. now rewrite length_map. Qed.

Lemma logged_refl (w : World) : logged w w [].
Proof.
  intros B. split; [exact B|].
  rewrite app_nil_r, slice_last_all; [reflexivity | now apply bounded_messages].
Qed.

Lemma logged_trans (w w1 w2 : World) (a b : list string) :
  logged w w1 a -> logged w1 w2 b -> logged w w2 (a ++ b).
Proof.
  intros H1 H2 B. destruct (H1 B) as [B1 M1]. destruct (H2 B1) as [B2 M2].
  split; [exact B2|].
  now rewrite M2, M1, slice_last_app, app_assoc.
Qed.

Lemma logged_appends (h : Host) (w : World) (ms : list string) :
  logged w (appends h w ms) ms.
Proof.
  intros B. split; [now apply appends_bounded | now apply messages_appends].
Qed.

Lemma logged_same_logs (w w1 w' : World) (ms : list string) :
  logs w' = logs w1 -> logged w w1 ms -> logged w w' ms.
Proof.
  intros E H B. destruct (H B) as [B1 M1]. unfold bounded, messages in *.
  rewrite E. now split.
Qed.

Lemma logged_from_same_logs (w0 w w' : World) (ms : list string) :
  logs w0 = logs w -> logged w w' ms -> logged w0 w' ms.
Proof.
  intros E H B. unfold logged, bounded, messages in *. rewrite E in *.
  exact (H B).
Qed.

Lemma logged_tick (w : World) : logged w (tick w) [].
Proof. eapply logged_same_logs; [|apply logged_refl]. reflexivity. Qed.

Lemma logged_record_send (raw : string) (w : World) :
  logged w (record_send raw w) [].
Proof. eapply logged_same_logs; [|apply logged_refl]. reflexivity. Qed.

(** ** Steps of the console *)

(** Every [addLog] writes one line to the console and reads the clock
    twice. *)
Lemma console_appends (h : Host) (w : World) (msgs : list string) :
  printed_since w (appends h w msgs) msgs
  /\ dates (appends h w msgs) = (2 * List.length msgs + dates w)%nat.
Proof.
  revert w. induction msgs as [|m msgs IH]; intros w.
  - split; [|reflexivity]. exists []. cbn. split; [now rewrite app_nil_r | constructor].
  - destruct (IH (fst (addLog h m w))) as ((lines & C & F) & D).
    rewrite appends_cons. split.
    + exists (("[" ++ toISOString h (Date_now h (S (dates w))) ++ "] " ++ m) :: lines).
      split.
      * rewrite C, addLog_run. cbn [fst console]. now rewrite <- app_assoc.
      * constructor; [eexists; reflexivity | exact F].
    + rewrite D, addLog_run. cbn [fst dates List.length]. lia.
Qed.

Lemma printed_appends (h : Host) (w : World) (msgs : list string) :
  printed_since w (appends h w msgs) msgs.
Proof. apply console_appends. Qed.

Lemma dates_appends (h : Host) (w : World) (ms : list string) :
  dates (appends h w ms) = (2 * List.length ms + dates w)%nat.
Proof. apply console_appends. Qed.

Lemma printed_refl (w : World) : printed_since w w [].
Proof. exists []. split; [now rewrite app_nil_r | constructor]. Qed.

Lemma printed_trans (w w1 w2 : World) (a b : list string) :
  printed_since w w1 a -> printed_since w1 w2 b -> printed_since w w2 (a ++ b).
Proof.
  intros (la & Ca & Fa) (lb & Cb & Fb). exists (la ++ lb)%list.
  split; [now rewrite Cb, Ca, app_assoc | now apply Forall2_app].
Qed.

Lemma printed_same_console (w w1 w' : World) (ms : list string) :
  console w' = console w1 -> printed_since w w1 ms -> printed_since w w' ms.
Proof. intros E (l & C & F). exists l. now rewrite E. Qed.

(** A step that logs: both relations at once. *)
Lemma step_appends (h : Host) (w : World) (ms : list string) :
  logged w (appends h w ms) ms /\ printed_since w (appends h w ms) ms.
Proof. split; [apply logged_appends | apply printed_appends]. Qed.

Lemma step_record_send (raw : string) (w w1 : World) (ms : list string) :
  logged w w1 ms /\ printed_since w w1 ms ->
  logged w (record_send raw w1) ms /\ printed_since w (record_send raw w1) ms.
Proof.
  intros [L P]. split.
  - eapply logged_same_logs; [|exact L]. reflexivity.
  - eapply printed_same_console; [|exact P]. reflexivity.
Qed.

Lemma step_tick (w w1 : World) (ms : list string) :
  logged w w1 ms /\ printed_since w w1 ms ->
  logged w (tick w1) ms /\ printed_since w (tick w1) ms.
Proof.
  intros [L P]. split.
  - eapply logged_same_logs; [|exact L]. reflexivity.
  - eapply printed_same_console; [|exact P]. reflexivity.
Qed.

Lemma step_then_appends (h : Host) (w w1 : World) (a b : list string) :
  logged w w1 a /\ printed_since w w1 a ->
  logged w (appends h w1 b) (a ++ b)
  /\ printed_since w (appends h w1 b) (a ++ b).
Proof.
  intros [L P]. split.
  - eapply logged_trans; [exact L | apply logged_appends].
  - eapply printed_trans; [exact P | apply printed_appends].
Qed.

(** ** The notifier *)

(** Whether the message of lines 33-39 can be built. *)
Lemma email_message_decided (h : Host) (subject body : value) :
  email_message h subject body
  = if printable subject && printable body
    then Ret (email_text (text h subject)
                (match body with
                 | VUndefined | VNull => EmptyString
                 | _ => text h body
                 end))
    else Throw TypeError_convert.
Proof.
  unfold email_message. rewrite ToString_decided.
  destruct (printable subject); cbn [andb bindR]; [|reflexivity].
  cbn [Array_join bindR join_element].
  rewrite (join_element_decided h body (ToString_decided h body)).
  destruct (printable body); reflexivity.
Qed.

(** X1.  [sendEmail], whatever its arguments, the state of the process and
    the Gmail API.
    - When [subject] or [body] has no string (an object with an own property
      [toString]), building the message throws inside the [try]: the API is
      not called, one entry reports the TypeError and the same error is
      thrown to the caller.
    - Otherwise the API is called exactly once, with the encoded message.
      When it accepts, [sendEmail] appends the entry of success and returns
      [true]; when it rejects with an error, [sendEmail] appends an entry
      with that error's message and throws the very same error again; and
      for as long as it does not answer, [sendEmail] stays suspended and
      logs nothing. *)
Theorem sendEmail_contract
  (h : Host) (g : Gmail) (subject body : value) (w : World) :
  exists w' o,
    sendEmail h g subject body w = (w', o)
    /\ (printable subject && printable body = false ->
        o = Throws (mkError "Cannot convert object to primitive value")
        /\ sent w' = sent w
        /\ logged w w'
             ["Failed to send email: Cannot convert object to primitive value"])
    /\ (printable subject && printable body = true ->
        exists text,
          email_message h subject body = Ret text
          /\ sent w' = (sent w ++ [encodedMessage text])%list
          /\ match messages_send g (List.length (sent w)) (encodedMessage text) with
             | Accepts =>
                 o = Returns true
                 /\ logged w w' ["Email sent successfully to blakeecom02@gmail.com"]
             | Rejects e =>
                 o = Throws e
                 /\ logged w w' ["Failed to send email: " ++ message e]
             | NeverSettles =>
                 o = Pending /\ logged w w' []
             end).
Proof.
  pose proof (email_message_decided h subject body) as E.
  destruct (printable subject && printable body).
  - set (text := email_text _ _) in E.
    destruct (messages_send g (List.length (sent w)) (encodedMessage text))
      as [|e|] eqn:S; do 2 eexists.
    + split; [apply (sendEmail_ok h g subject body w text E S)|].
      split; [intros D; discriminate D|]. intros _. exists text.
      split; [exact E|].
      split; [cbn [record_send sent]; now rewrite sent_appends|].
      rewrite S. split; [reflexivity|].
      eapply logged_same_logs; [|apply logged_appends]. reflexivity.
    + split; [apply (sendEmail_rejected h g subject body w text e E S)|].
      split; [intros D; discriminate D|]. intros _. exists text.
      split; [exact E|].
      split; [cbn [record_send sent]; now rewrite sent_appends|].
      rewrite S. split; [reflexivity|].
      eapply logged_same_logs; [|apply logged_appends]. reflexivity.
    + split; [apply (sendEmail_pending h g subject body w text E S)|].
      split; [intros D; discriminate D|]. intros _. exists text.
      split; [exact E|]. split; [reflexivity|].
      rewrite S. split; [reflexivity | apply logged_record_send].
  - do 2 eexists.
    split; [apply (sendEmail_unbuilt h g subject body w _ E)|].
    split; [|intros D; discriminate D]. intros _.
    split; [reflexivity|]. split; [apply sent_appends | apply logged_appends].
Qed.

Lemma sendEmail_contract_witness :
  exists w',
    sendEmail Sample.host Sample.gmail_ok (VStr "subject") Sample.without_text
      empty_world
    = (w', Throws (mkError "Cannot convert object to primitive value"))
    /\ sent w' = [].
Proof.
  destruct (sendEmail_contract Sample.host Sample.gmail_ok (VStr "subject")
              Sample.without_text empty_world) as (w' & o & H & U & _).
  destruct (U eq_refl) as (O & S & _).
  exists w'. rewrite H, O. split; [reflexivity | exact S].
Defined.

(** ** The test route *)

(** The test route, exit by exit: the message it sends shows the time of the
    third reading of the clock since the request began (the first two are
    those of the log entry). *)
Lemma test_run (h : Host) (g : Gmail) (w : World) :
  exists body,
    let raw := encodedMessage
                 (email_text "🧪 Test: Stripe Payment Failure Monitor" body) in
    let w1 := tick (appends h w ["Manual test triggered"]) in
    contains body ("<p><strong>Time:</strong> "
                   ++ toLocaleString h (Date_now h (2 + dates w)) ++ "</p>")
    /\ (messages_send g (List.length (sent w)) raw = Accepts ->
        test h g w
        = (record_send raw
             (appends h w1 ["Email sent successfully to blakeecom02@gmail.com"]),
           Returns (mkResponse 200
                      [ ("success", VBool true);
                        ("message", VStr "Test notification sent successfully");
                        ("email", VStr "blakeecom02@gmail.com") ])))
    /\ (forall e,
          messages_send g (List.length (sent w)) raw = Rejects e ->
          test h g w
          = (appends h
               (record_send raw
                  (appends h w1 ["Failed to send email: " ++ message e]))
               ["Test failed: " ++ message e],
             Returns (mkResponse 500 [("error", VStr (message e))])))
    /\ (messages_send g (List.length (sent w)) raw = NeverSettles ->
        test h g w = (record_send raw w1, Pending)).
Proof.
  eexists. cbv zeta. split; [|split; [|split]].
  2:{ intros S. unfold test, try_catch, bind. log_step.
      unfold new_Date. cbv beta iota.
      erewrite (sendEmail_ok h g _ _ (tick (appends h w ["Manual test triggered"])));
        [reflexivity | apply email_message_strings |].
      cbn [tick sent]. rewrite sent_appends. exact S. }
  2:{ intros e S. unfold test, try_catch, bind. log_step.
      unfold new_Date. cbv beta iota.
      erewrite (sendEmail_rejected h g _ _
                  (tick (appends h w ["Manual test triggered"])) _ e).
      - log_step. reflexivity.
      - apply email_message_strings.
      - cbn [tick sent]. rewrite sent_appends. exact S. }
  2:{ intros S. unfold test, try_catch, bind. log_step.
      unfold new_Date. cbv beta iota.
      erewrite (sendEmail_pending h g _ _
                  (tick (appends h w ["Manual test triggered"])));
        [reflexivity | apply email_message_strings |].
      cbn [tick sent]. rewrite sent_appends. exact S. }
  line 6. rewrite dates_appends. cbn [List.length Nat.mul Nat.add].
  exists "      ", EmptyString. now rewrite append_nil_r.
Qed.

(** X2.  POST /test never throws.  It calls the Gmail API exactly once,
    with a message whose body shows the current time.  When the API accepts,
    the answer is 200 with [success: true] and the log receives
    [Manual test triggered] and the notifier's success entry; when the API
    rejects with an error, the answer is 500 with that error's message and
    the log receives [Manual test triggered], the notifier's failure entry
    and [Test failed: ...]; and for as long as the API does not answer, the
    request has no answer and the log has received
    [Manual test triggered] only. *)
Theorem test_notification (h : Host) (g : Gmail) (w : World) :
  exists w' o body,
    let raw := encodedMessage
                 (email_text "🧪 Test: Stripe Payment Failure Monitor" body) in
    test h g w = (w', o)
    /\ email_message h (VStr "🧪 Test: Stripe Payment Failure Monitor") (VStr body)
       = Ret (email_text "🧪 Test: Stripe Payment Failure Monitor" body)
    /\ contains body ("<p><strong>Time:</strong> "
                      ++ toLocaleString h (Date_now h (2 + dates w)) ++ "</p>")
    /\ sent w' = (sent w ++ [raw])%list
    /\ match messages_send g (List.length (sent w)) raw with
       | Accepts =>
           o = Returns
                 (mkResponse 200
                    [ ("success", VBool true);
                      ("message", VStr "Test notification sent successfully");
                      ("email", VStr "blakeecom02@gmail.com") ])
           /\ logged w w'
                [ "Manual test triggered";
                  "Email sent successfully to blakeecom02@gmail.com" ]
       | Rejects e =>
           o = Returns (mkResponse 500 [("error", VStr (message e))])
           /\ logged w w'
                [ "Manual test triggered";
                  "Failed to send email: " ++ message e;
                  "Test failed: " ++ message e ]
       | NeverSettles =>
           o = Pending /\ logged w w' ["Manual test triggered"]
       end.
Proof.
  destruct (test_run h g w) as (body & T & Hok & Hko & Hnever). cbv zeta in *.
  pose proof (step_tick _ _ _ (step_appends h w ["Manual test triggered"])) as L1.
  destruct (messages_send g (List.length (sent w))
              (encodedMessage
                 (email_text "🧪 Test: Stripe Payment Failure Monitor" body)))
    as [|e|] eqn:S.
  - do 2 eexists. exists body. cbv zeta.
    split; [apply (Hok eq_refl)|]. split; [reflexivity|]. split; [exact T|].
    split; [repeat (rewrite sent_appends || cbn [record_send sent tick]);
            reflexivity|].
    rewrite S. split; [reflexivity|].
    apply (step_record_send _ _ _ _ (step_then_appends h _ _ _ _ L1)).
  - do 2 eexists. exists body. cbv zeta.
    split; [apply (Hko e eq_refl)|]. split; [reflexivity|]. split; [exact T|].
    split; [repeat (rewrite sent_appends || cbn [record_send sent tick]);
            reflexivity|].
    rewrite S. split; [reflexivity|].
    apply (step_then_appends h _ _ _ ["Test failed: " ++ message e]
             (step_record_send _ _ _ _
                (step_then_appends h _ _ _
                   ["Failed to send email: " ++ message e] L1))).
  - do 2 eexists. exists body. cbv zeta.
    split; [apply (Hnever eq_refl)|]. split; [reflexivity|]. split; [exact T|].
    split; [repeat (rewrite sent_appends || cbn [record_send sent tick]);
            reflexivity|].
    rewrite S. split; [reflexivity|].
    apply (step_record_send _ _ _ _ L1).
Qed.

(** ** The webhook route *)

Lemma webhook_of_handle
  (h : Host) (g : Gmail) (event : value) (w w' : World)
  (o : Outcome ProcessingResult) :
  handle h g event w = (w', o) ->
  webhook h g event w
  = (w', match o with
         | Returns r => Returns (respond r)
         | Throws e => Throws e
         | Pending => Pending
         end).
Proof. intros H. unfold webhook, bind. rewrite H. now destruct o. Qed.

(** X3.  What POST /webhook answers to a request whose body reached the
    handler, once the handler is through (it is not while the Gmail API
    leaves a call unanswered).  The answer is either 200 with
    [{received: true, processed: true}] or 500 with an [error] text.  It is
    200 exactly when the request has a body whose [type] has a string and
    either that type is not monitored or the notification was rendered and
    accepted by the Gmail API, so an ignored event and a sent notification
    get the same answer.  A monitored event that is answered 500 gets the
    fixed text [Failed to send notification]: the detail of a rendering or
    delivery error goes to the log, not into the answer.  A body whose
    [type] has no string is answered 500 with the message of the TypeError
    itself. *)
Theorem webhook_response
  (h : Host) (g : Gmail) (request_body : value) (w : World) :
  request_body_shape request_body = true ->
  exists w' o,
    webhook h g request_body w = (w', o)
    /\ (o = Pending
        \/ o = Returns (mkResponse 200 [ ("received", VBool true);
                                         ("processed", VBool true) ])
        \/ exists text, o = Returns (mkResponse 500 [("error", VStr text)]))
    /\ (o = Returns (mkResponse 200 [ ("received", VBool true);
                                      ("processed", VBool true) ])
        <-> nullish request_body = false
            /\ printable (prop request_body "type") = true
            /\ (monitored (prop request_body "type") = false
                \/ exists c raw,
                     formatFailureEmail h request_body = Ret c
                     /\ payload h c = Ret raw
                     /\ messages_send g (List.length (sent w)) raw = Accepts))
    /\ (monitored (prop request_body "type") = true ->
        forall response,
          o = Returns response ->
          status response = 500%nat ->
          response = mkResponse 500 [("error", VStr "Failed to send notification")])
    /\ (nullish request_body = false ->
        printable (prop request_body "type") = false ->
        o = Returns (mkResponse 500
                       [("error", VStr "Cannot convert object to primitive value")])).
Proof.
  intros _.
  destruct (handle_cases h g request_body w)
    as [(N & H) | [(N & P & H) | [(N & P & K & H) | [(e0 & N & K & F & H)
       | [(c & raw & N & K & F & R & S & H) | [(c & raw & e0 & N & K & F & R & S & H)
       | (c & raw & N & K & F & R & S & H)]]]]]];
    try pose proof (monitored_printable _ K) as P;
    do 2 eexists; (split; [apply (webhook_of_handle _ _ _ _ _ _ H)|]);
    cbn [respond].
  - split; [right; right; eexists; reflexivity|]. split; [|split].
    + split; [intros E; discriminate E | intros [E _]; congruence].
    + intros K. destruct request_body; discriminate.
    + intros E. congruence.
  - split; [right; right; eexists; reflexivity|]. split; [|split].
    + split; [intros E; discriminate E | intros (_ & E & _); congruence].
    + intros K. pose proof (monitored_printable _ K). congruence.
    + reflexivity.
  - split; [right; left; reflexivity|]. split; [|split].
    + split; [intros _; repeat split; auto | reflexivity].
    + intros K'. congruence.
    + intros _ P'. congruence.
  - split; [right; right; eexists; reflexivity|]. split; [|split].
    + split; [intros E; discriminate E|].
      intros (_ & _ & [E | (c & raw & E & _)]); congruence.
    + intros _ response E _. now injection E as <-.
    + intros _ P'. congruence.
  - split; [right; left; reflexivity|]. split; [|split].
    + split; [|reflexivity]. intros _. repeat split; auto.
      right. now exists c, raw.
    + intros _ response E St. injection E as <-. discriminate St.
    + intros _ P'. congruence.
  - split; [right; right; eexists; reflexivity|]. split; [|split].
    + split; [intros E; discriminate E|].
      intros (_ & _ & [E | (c' & raw' & F' & R' & S')]); [congruence|].
      rewrite F in F'. injection F' as <-. rewrite R in R'. injection R' as <-.
      congruence.
    + intros _ response E _. now injection E as <-.
    + intros _ P'. congruence.
  - split; [left; reflexivity|]. split; [|split].
    + split; [intros E; discriminate E|].
      intros (_ & _ & [E | (c' & raw' & F' & R' & S')]); [congruence|].
      rewrite F in F'. injection F' as <-. rewrite R in R'. injection R' as <-.
      congruence.
    + intros _ response E. discriminate E.
    + intros _ P'. congruence.
Qed.

Lemma webhook_response_witness :
  exists w',
    webhook Sample.host Sample.gmail_ok Sample.type_without_text empty_world
    = (w', Returns (mkResponse 500
                      [("error", VStr "Cannot convert object to primitive value")])).
Proof.
  destruct (webhook_response Sample.host Sample.gmail_ok Sample.type_without_text
              empty_world eq_refl) as (w' & o & H & _ & _ & _ & U).
  exists w'. rewrite H, (U eq_refl eq_refl). reflexivity.
Defined.

(** X4.  When the handler calls the Gmail API.  The calls recorded before
    are left as they are, and the handler adds at most one: exactly when the
    event type is monitored and the event renders, and then with the encoded
    rendering.  A request without a body, an event of another type and an
    event that fails to render cause no call. *)
Theorem handle_calls_api (h : Host) (g : Gmail) (event : value) (w : World) :
  sent (fst (handle h g event w))
  = (sent w
     ++ (if monitored (prop event "type")
         then match formatFailureEmail h event with
              | Ret c => match payload h c with
                         | Ret raw => [raw]
                         | Throw _ => []
                         end
              | Throw _ => []
              end
         else []))%list
  /\ (forall c,
        monitored (prop event "type") = true ->
        formatFailureEmail h event = Ret c ->
        exists raw, payload h c = Ret raw).
Proof.
  split; [|intros c K F; exact (rendered_has_payload h event c K F)].
  destruct (handle_cases h g event w)
    as [(N & H) | [(N & P & H) | [(N & P & K & H) | [(e0 & N & K & F & H)
       | [(c & raw & N & K & F & R & S & H) | [(c & raw & e0 & N & K & F & R & S & H)
       | (c & raw & N & K & F & R & S & H)]]]]]];
    rewrite H; cbn [fst record_send sent]; rewrite sent_appends.
  - assert (K : monitored (prop event "type") = false)
      by (destruct event; try discriminate N; reflexivity).
    rewrite K. now rewrite app_nil_r.
  - assert (K : monitored (prop event "type") = false).
    { destruct (monitored (prop event "type")) eqn:K; [|reflexivity].
      pose proof (monitored_printable _ K). congruence. }
    rewrite K. now rewrite app_nil_r.
  - rewrite K. now rewrite app_nil_r.
  - rewrite K, F. now rewrite app_nil_r.
  - now rewrite K, F, R.
  - now rewrite K, F, R.
  - now rewrite K, F, R.
Qed.

(** X5.  The type test is strict.  An event whose [type] is not a string
    but has one (a missing [type], a number, an array that merely prints as
    [charge.failed]) is ignored, whatever its text: the two entries the
    handler logs show that text, which for a missing [type] is
    [undefined], and nothing is rendered or sent. *)
Theorem non_string_type_ignored
  (h : Host) (g : Gmail) (event type : value) (w : World) :
  get event "type" = Ret type ->
  (forall s, type <> VStr s) ->
  printable type = true ->
  ToString h type = Ret (text h type)
  /\ handle h g event w
     = (appends h w [ "Received webhook: " ++ text h type;
                      "Ignored webhook event: " ++ text h type ],
        Returns Ignored)
  /\ sent (fst (handle h g event w)) = sent w
  /\ (type = VUndefined ->
      messages (fst (handle h g event empty_world))
      = [ "Received webhook: undefined"; "Ignored webhook event: undefined" ]).
Proof.
  intros Hty Hs T. destruct (get_Ret_nonnullish _ _ _ Hty) as [N P].
  assert (K : monitored (prop event "type") = false).
  { rewrite P. destruct type; try reflexivity. now destruct (Hs s). }
  assert (H : forall w0,
             handle h g event w0
             = (appends h w0 [ "Received webhook: " ++ text h type;
                               "Ignored webhook event: " ++ text h type ],
                Returns Ignored)).
  { intros w0. rewrite <- P in T.
    pose proof (handle_ignored h g event w0 N T K) as H.
    unfold type_text in H. now rewrite P in H. }
  split; [apply (ToString_text h type T)|]. split; [apply H|].
  split; [rewrite H; apply sent_appends|].
  intros ->. rewrite H. reflexivity.
Qed.

Lemma non_string_type_ignored_witness :
  messages
    (fst (handle Sample.host Sample.gmail_ok
            (VObj [ ("type", VArr [VStr "charge.failed"]);
                    ("data", VObj [("object", VObj [("currency", VStr "usd")])]) ])
            empty_world))
  = [ "Received webhook: charge.failed";
      "Ignored webhook event: charge.failed" ].
Proof.
  rewrite (proj1 (proj2 (non_string_type_ignored Sample.host Sample.gmail_ok
                    (VObj [ ("type", VArr [VStr "charge.failed"]);
                            ("data",
                             VObj [("object", VObj [("currency", VStr "usd")])]) ])
                    (VArr [VStr "charge.failed"]) empty_world eq_refl
                    (fun s E => eq_ind (VArr [VStr "charge.failed"])
                                  (fun v => match v with VArr _ => True | _ => False end)
                                  I (VStr s) E)
                    eq_refl))).
  reflexivity.
Defined.

(** X6.  A request without a body ([req.body] is [undefined] or [null]).
    Reading [event.type] throws before anything is logged; the outer catch
    logs one [Webhook error] entry with the message of that TypeError and
    answers 500 with the same message.  There is no [Received] entry and no
    call of the Gmail API. *)
Theorem webhook_without_body
  (h : Host) (g : Gmail) (request_body : value) (w : World) :
  nullish request_body = true ->
  let detail := message (TypeError_read request_body "type") in
  webhook h g request_body w
  = (appends h w ["Webhook error: " ++ detail],
     Returns (mkResponse 500 [("error", VStr detail)]))
  /\ sent (appends h w ["Webhook error: " ++ detail]) = sent w.
Proof.
  intros N detail. split; [|apply sent_appends].
  apply (webhook_of_handle h g request_body w _ _ (handle_no_event h g _ w N)).
Qed.

Lemma webhook_without_body_witness :
  webhook Sample.host Sample.gmail_ok VUndefined empty_world
  = (appends Sample.host empty_world
       ["Webhook error: Cannot read properties of undefined (reading 'type')"],
     Returns (mkResponse 500
                [("error",
                  VStr "Cannot read properties of undefined (reading 'type')")])).
Proof.
  exact (proj1 (webhook_without_body Sample.host Sample.gmail_ok VUndefined
                  empty_world eq_refl)).
Defined.

(** ** The process as a whole *)

(** One run of the handler, for the invariants of the process. *)
Lemma handle_step (h : Host) (g : Gmail) (event : value) (w : World) :
  exists w' o ms calls,
    handle h g event w = (w', o)
    /\ (forall e, o <> Throws e)
    /\ logged w w' ms
    /\ printed_since w w' ms
    /\ (List.length ms <= 3)%nat
    /\ sent w' = (sent w ++ calls)%list
    /\ (List.length calls <= 1)%nat
    /\ (o = Pending ->
        exists raw,
          calls = [raw]
          /\ messages_send g (List.length (sent w)) raw = NeverSettles).
Proof.
  destruct (handle_cases h g event w)
    as [(N & H) | [(N & P & H) | [(N & P & K & H) | [(e0 & N & K & F & H)
       | [(c & raw & N & K & F & R & S & H) | [(c & raw & e0 & N & K & F & R & S & H)
       | (c & raw & N & K & F & R & S & H)]]]]]].
  1-4: do 3 eexists; exists []; split; [exact H|];
       split; [discriminate|];
       split; [apply logged_appends|];
       split; [apply printed_appends|];
       split; [cbn; lia|];
       split; [now rewrite sent_appends, app_nil_r|];
       split; [cbn; lia | discriminate].
  1-3: do 3 eexists; exists [raw]; split; [exact H|];
       split; [discriminate|];
       split; [apply step_record_send, step_appends|];
       split; [apply step_record_send, step_appends|];
       split; [cbn; lia|];
       split; [cbn [record_send sent]; now rewrite sent_appends|];
       split; [cbn; lia|];
       first [discriminate | intros _; exists raw; split; [reflexivity | exact S]].
Qed.

Lemma serve_step (h : Host) (g : Gmail) (r : Request) (w : World) :
  bounded w ->
  exists w' o, serve h g r w = (w', o) /\ step_invariant g r w w' o.
Proof.
  intros B. unfold step_invariant.
  destruct r as [|uptime| |request_body|]; cbn [serve is_post].
  - exists w. eexists. split; [reflexivity|].
    split; [exact B|]. split; [discriminate|]. split.
    + exists []. split; [apply (logged_refl w B)|].
      split; [apply printed_refl | auto].
    + exists []. split; [now rewrite app_nil_r|]. split; [auto | discriminate].
  - exists (tick w). eexists. split; [reflexivity|].
    split; [exact B|]. split; [discriminate|]. split.
    + exists []. split; [apply (logged_tick w B)|].
      split; [apply (step_tick w w [] (conj (logged_refl w) (printed_refl w))) | auto].
    + exists []. split; [now rewrite app_nil_r|]. split; [auto | discriminate].
  - exists w. eexists. split; [reflexivity|].
    split; [exact B|]. split; [discriminate|]. split.
    + exists []. split; [apply (logged_refl w B)|].
      split; [apply printed_refl | auto].
    + exists []. split; [now rewrite app_nil_r|]. split; [auto | discriminate].
  - destruct (handle_step h g request_body w)
      as (w' & o & ms & calls & H & T & L & P & Lm & S & C & Q).
    destruct (L B) as [B' M].
    exists w'. eexists. split; [apply (webhook_of_handle _ _ _ _ _ _ H)|].
    split; [exact B'|]. split; [|split].
    + destruct o; try discriminate. now destruct (T e).
    + exists ms. auto.
    + exists calls. split; [exact S|]. split; [exact C|].
      intros E. apply Q. now destruct o.
  - destruct (test_run h g w) as (body & _ & Hok & Hko & Hnever). cbv zeta in *.
    pose proof (step_tick _ _ _ (step_appends h w ["Manual test triggered"])) as L1.
    set (raw := encodedMessage
                  (email_text "🧪 Test: Stripe Payment Failure Monitor" body)) in *.
    assert (Sent : forall w1 : World,
               sent w1 = sent (record_send raw w) ->
               sent w1 = (sent w ++ [raw])%list) by (intros w1 ->; reflexivity).
    destruct (messages_send g (List.length (sent w)) raw) as [|e|] eqn:S.
    + pose proof (step_record_send raw _ _ _
                    (step_then_appends h _ _ _
                       ["Email sent successfully to blakeecom02@gmail.com"] L1))
        as [L P].
      destruct (L B) as [B' M].
      do 2 eexists. split; [apply (Hok eq_refl)|].
      split; [exact B'|]. split; [discriminate|]. split.
      * eexists. split; [exact M|]. split; [exact P | cbn; lia].
      * exists [raw]. split; [|split; [cbn; lia | discriminate]].
        apply Sent.
        repeat (rewrite sent_appends || cbn [record_send sent tick]). reflexivity.
    + pose proof (step_then_appends h _ _ _ ["Test failed: " ++ message e]
                    (step_record_send raw _ _ _
                       (step_then_appends h _ _ _
                          ["Failed to send email: " ++ message e] L1)))
        as [L P].
      destruct (L B) as [B' M].
      do 2 eexists. split; [apply (Hko e eq_refl)|].
      split; [exact B'|]. split; [discriminate|]. split.
      * eexists. split; [exact M|]. split; [exact P | cbn; lia].
      * exists [raw]. split; [|split; [cbn; lia | discriminate]].
        apply Sent.
        repeat (rewrite sent_appends || cbn [record_send sent tick]). reflexivity.
    + pose proof (step_record_send raw _ _ _ L1) as [L P].
      destruct (L B) as [B' M].
      do 2 eexists. split; [apply (Hnever eq_refl)|].
      split; [exact B'|]. split; [discriminate|]. split.
      * eexists. split; [exact M|]. split; [exact P | cbn; lia].
      * exists [raw]. split; [|split; [cbn; lia|]].
        -- apply Sent.
           repeat (rewrite sent_appends || cbn [record_send sent tick]). reflexivity.
        -- intros _. exists raw. split; [reflexivity | exact S].
Qed.

(** X7.  The process over any sequence of requests to its five routes,
    from any state whose log has at most 100 entries and whatever the Gmail
    API does.  Of every request in turn, with the state it finds and the
    state it leaves: the log has at most 100 entries; no route lets an
    exception out; what the handler logged, at most three messages and none
    on a GET route, is in the log after the last 100 of the former entries,
    in order, and is on the console line for line; the calls of the Gmail
    API recorded before stay, and the request added at most one if it is a
    POST and none if it is a GET; and a request is left without an answer
    only when it made a call that the API never answers. *)
Theorem serve_all_invariants
  (h : Host) (g : Gmail) (requests : list Request) (w : World) :
  bounded w ->
  forallb reaches_handler requests = true ->
  each_step (step_invariant g) w requests (serve_all h g requests w)
  /\ List.length (serve_all h g requests w) = List.length requests.
Proof.
  intros B _. revert w B. induction requests as [|r rest IH]; intros w B.
  - cbn. auto.
  - destruct (serve_step h g r w B) as (w1 & o & E & I).
    pose proof (proj1 I) as B1.
    destruct (IH w1 B1) as (Steps & Len).
    cbn [serve_all]. rewrite E. cbn [each_step List.length].
    split; [split; [exact I | exact Steps] | now rewrite Len].
Qed.

Lemma serve_all_invariants_witness :
  let requests :=
    [ POST_webhook Sample.charge_failed; GET_logs; POST_test;
      POST_webhook VUndefined; GET_health 12; GET_root ] in
  let run :=
    serve_all Sample.host (Sample.gmail_failing "quota exceeded") requests
      empty_world in
  each_step (step_invariant (Sample.gmail_failing "quota exceeded"))
    empty_world requests run
  /\ List.length run = 6%nat.
Proof.
  cbv zeta.
  destruct (serve_all_invariants
              Sample.host (Sample.gmail_failing "quota exceeded")
              [ POST_webhook Sample.charge_failed; GET_logs; POST_test;
                POST_webhook VUndefined; GET_health 12; GET_root ]
              empty_world (Nat.le_0_l 100) eq_refl)
    as (S & L).
  exact (conj S L).
Defined.

(** ** The routes that only read *)

(** X8.  GET /logs and GET /health after any sequence of [addLog] calls
    from the empty log.  GET /logs changes nothing and shows the last 20
    messages appended (all of them when there are fewer), oldest first,
    with [total_logs] the smaller of the number of appends and 100;
    GET /health reads the clock once, changes neither the log nor the calls
    made, and reports the same count as [logs_count]. *)
Theorem logs_and_health_after_appends
  (h : Host) (msgs : list string) (uptime : float) :
  let w := appends h empty_world msgs in
  let count := VNum (number_of_nat (Nat.min (List.length msgs) 100)) in
  exists recent,
    get_logs w
    = (w, Returns (mkResponse 200 [ ("logs", VArr (map entry_json recent));
                                    ("total_logs", count) ]))
    /\ map entry_message recent = slice_last 20 msgs
    /\ List.length recent = Nat.min (List.length msgs) 20
    /\ health h uptime w
       = (tick w,
          Returns (mkResponse 200
                     [ ("status", VStr "healthy");
                       ("timestamp", VStr (toISOString h (Date_now h (dates w))));
                       ("uptime", VNum uptime);
                       ("logs_count", count) ])).
Proof.
  cbv zeta.
  assert (B : bounded empty_world) by (unfold bounded; cbn; lia).
  assert (L : List.length (logs (appends h empty_world msgs))
              = Nat.min (List.length msgs) 100).
  { rewrite length_logs_appends by exact B. cbn [empty_world logs List.length]. lia. }
  assert (M : messages (appends h empty_world msgs) = slice_last 100 msgs).
  { now rewrite messages_appends by exact B. }
  exists (slice_last 20 (logs (appends h empty_world msgs))).
  split; [unfold get_logs, logs_route; now rewrite L|].
  split; [|split].
  - rewrite map_slice_last. fold (messages (appends h empty_world msgs)).
    rewrite M. apply slice_last_slice_last. lia.
  - rewrite length_slice_last, L. lia.
  - unfold health, bind, new_Date, logs_length, ret. cbn [logs]. rewrite L.
    reflexivity.
Qed.

(** ** The console *)

(** X9.  The console keeps what the log forgets.  Every [addLog] writes
    exactly one line to the console, the message after a bracketed
    timestamp, and reads the clock twice.  The lines of any run of [addLog]
    calls follow what the console held, in order and without eviction. *)
Theorem console_keeps_every_message (h : Host) (w : World) (msgs : list string) :
  exists lines,
    console (appends h w msgs) = (console w ++ lines)%list
    /\ Forall2 (fun line m => exists stamp, line = "[" ++ stamp ++ "] " ++ m)
         lines msgs
    /\ dates (appends h w msgs) = (2 * List.length msgs + dates w)%nat.
Proof.
  destruct (console_appends h w msgs) as ((lines & C & F) & D).
  exists lines. auto.
Qed.

(** ** The start of the process *)

(** X10.  When the server starts listening it logs one entry that names the
    port: 3000 when the environment variable PORT is unset or is the empty
    string, and otherwise the variable's text. *)
Theorem listening_logs_port (h : Host) (env_PORT : option string) (w : World) :
  exists port,
    listening h env_PORT w
    = (appends h w ["Stripe Payment Failure Monitor started on port " ++ port],
       Returns tt)
    /\ (env_PORT = None \/ env_PORT = Some EmptyString -> port = "3000")
    /\ (forall s, env_PORT = Some s -> s <> EmptyString -> port = s).
Proof.
  exists (text h (PORT env_PORT)).
  split; [|split].
  - unfold listening, bind, lift. rewrite ToString_text.
    + apply addLog_returns.
    + destruct env_PORT as [[|c s]|]; reflexivity.
  - intros [-> | ->]; vm_compute; reflexivity.
  - intros s -> Hs. unfold PORT, or_else, process_env. cbn [ToBoolean].
    destruct (String.eqb s EmptyString) eqn:E; [|reflexivity].
    apply String.eqb_eq in E. contradiction.
Qed.

(** ** More on the renderer *)



(** X12.  The fields without a default.  On an event of a monitored type
    whose [data.object] has a string [currency] and whose fields read by the
    renderer have a string and a number, a missing amount ([amount] of a
    charge, [amount_due] of an invoice) is shown as [NaN] in the subject; a
    missing [id] as [undefined], in the link too; a missing [created] of a
    charge as [Invalid Date]; a missing [customer] or [attempt_count] of an
    invoice as [undefined].  None of them stops the rendering. *)
Theorem missing_fields_without_default
  (h : Host) (event data object : value) (type currency : string) :
  get event "type" = Ret (VStr type) ->
  type = "charge.failed" \/ type = "invoice.payment_failed" ->
  get event "data" = Ret data ->
  get data "object" = Ret object ->
  prop object "currency" = VStr currency ->
  fields_printable type object = true ->
  exists subject body,
    formatFailureEmail h event = Ret (mkContent (VStr subject) (VStr body))
    /\ (prop object "id" = VUndefined ->
        contains body ("/" ++ "undefined" ++ dq ++ ">Open "))
    /\ (type = "charge.failed" ->
        (prop object "amount" = VUndefined ->
         contains subject ("$NaN " ++ String_toUpperCase h currency))
        /\ (prop object "id" = VUndefined ->
            contains body "<p><strong>Charge ID:</strong> undefined</p>")
        /\ (prop object "created" = VUndefined ->
            contains body "<p><strong>Time:</strong> Invalid Date</p>"))
    /\ (type = "invoice.payment_failed" ->
        (prop object "amount_due" = VUndefined ->
         contains subject ("$NaN " ++ String_toUpperCase h currency))
        /\ (prop object "customer" = VUndefined ->
            contains body "<p><strong>Customer ID:</strong> undefined</p>")
        /\ (prop object "attempt_count" = VUndefined ->
            contains body "<p><strong>Attempt Count:</strong> undefined</p>")).
Proof.
  intros Hty Known Hdata Hobj Hc P.
  pose proof (prop_string_nonnullish _ _ _ Hc) as N.
  assert (A : forall prefix : string,
             contains (prefix ++ "$" ++ toFixed h 2 (number h VUndefined / 100)
                       ++ " " ++ String_toUpperCase h currency)
               ("$NaN " ++ String_toUpperCase h currency)).
  { intros prefix. exists prefix, EmptyString.
    rewrite append_nil_r. reflexivity. }
  destruct Known as [-> | ->].
  - resolve_reads Hty Hdata Hobj N. convert P.
    rewrite Hc. cbv beta iota delta [call_toUpperCase].
    do 2 eexists. split; [reflexivity|]. split; [|split].
    + intros ->. line 10.
      exists ("      <p><small>View in Stripe Dashboard: <a href=" ++ dq
              ++ "https://dashboard.stripe.com/payments"), "Charge</a></small></p>".
      vm_compute. reflexivity.
    + intros _. split; [|split].
      * intros ->. exact (A "💳 Payment Failure Alert - ").
      * intros ->. line 6. by_search.
      * intros ->. line 7. by_search.
    + intros E. discriminate E.
  - resolve_reads Hty Hdata Hobj N. convert P.
    rewrite Hc. cbv beta iota delta [call_toUpperCase].
    destruct (ToBoolean (prop object "next_payment_attempt")); cbv beta iota;
      do 2 eexists; (split; [reflexivity|]); (split; [|split]);
      try (intros E; discriminate E);
      try (intros ->; line 10;
           exists ("      <p><small>View in Stripe Dashboard: <a href=" ++ dq
                   ++ "https://dashboard.stripe.com/invoices"),
                  "Invoice</a></small></p>";
           vm_compute; reflexivity);
      (intros _; split; [|split];
       [ intros ->; exact (A "📋 Subscription Payment Failure - ")
       | intros ->; line 3; by_search
       | intros ->; line 6; by_search ]).
Qed.

Lemma missing_fields_without_default_witness :
  exists subject body,
    formatFailureEmail Sample.host
      (Sample.event "charge.failed" [("currency", VStr "usd")])
    = Ret (mkContent (VStr subject) (VStr body))
    /\ contains subject "$NaN USD"
    /\ contains body "<p><strong>Charge ID:</strong> undefined</p>"
    /\ contains body "<p><strong>Time:</strong> Invalid Date</p>".
Proof.
  destruct (missing_fields_without_default
              Sample.host
              (Sample.event "charge.failed" [("currency", VStr "usd")])
              (VObj [("object", VObj [("currency", VStr "usd")])])
              (VObj [("currency", VStr "usd")])
              "charge.failed" "usd"
              eq_refl (or_introl eq_refl) eq_refl eq_refl eq_refl eq_refl)
    as (subject & body & F & _ & C & _).
  destruct (C eq_refl) as (A & I & T).
  exists subject, body. split; [exact F|].
  split; [exact (A eq_refl)|]. split; [exact (I eq_refl) | exact (T eq_refl)].
Defined.

Lemma prop_of_nullish (o : value) (k : string) :
  nullish o = true -> prop o k = VUndefined.
Proof. unfold prop. intros N. now rewrite (get_nullish _ _ N). Qed.

(** X13.  When the renderer succeeds.  On an event whose type is one of
    the two monitored strings, [formatFailureEmail] returns a subject and a
    body exactly when [event.data.object.currency] can be read and is a
    string and every property of [event.data.object] that the renderer
    reads has a string and a number (none is an object with an own property
    [toString], or an array with such an element); in every other case it
    throws.  Whether a field is present does not decide it. *)
Theorem render_succeeds_iff (h : Host) (event : value) (type : string) :
  get event "type" = Ret (VStr type) ->
  type = "charge.failed" \/ type = "invoice.payment_failed" ->
  let object := prop (prop event "data") "object" in
  ((exists subject body,
      formatFailureEmail h event = Ret (mkContent (VStr subject) (VStr body)))
   <-> (exists currency, prop object "currency" = VStr currency)
       /\ fields_printable type object = true)
  /\ ((exists e, formatFailureEmail h event = Throw e)
      <-> (forall currency, prop object "currency" <> VStr currency)
          \/ fields_printable type object = false).
Proof.
  intros Hty Known object.
  destruct (get_Ret_nonnullish _ _ _ Hty) as [N _].
  pose proof (get_prop event "data" N) as Hdata.
  set (data := prop event "data") in *.
  assert (Forward : forall c, formatFailureEmail h event = Ret c ->
                              (exists currency, prop object "currency" = VStr currency)
                              /\ fields_printable type object = true).
  { intros c F. destruct (nullish data) eqn:Nd.
    - exfalso. revert F.
      unfold formatFailureEmail. rewrite N, Hty, Hdata.
      cbv beta iota delta [bindR]. rewrite (get_nullish _ "object" Nd).
      destruct Known as [-> | ->]; vm_compute; discriminate.
    - exact (rendered_requires h event data object type c Hty Known Hdata
               (get_prop data "object" Nd) F). }
  assert (Backward : (exists currency, prop object "currency" = VStr currency)
                     /\ fields_printable type object = true ->
                     exists subject body,
                       formatFailureEmail h event
                       = Ret (mkContent (VStr subject) (VStr body))).
  { intros ((c & Hc) & P).
    pose proof (prop_string_nonnullish _ _ _ Hc) as No.
    assert (Nd : nullish data = false).
    { destruct (nullish data) eqn:Nd; [|reflexivity].
      subst object. rewrite (prop_of_nullish data "object" Nd) in No.
      discriminate No. }
    pose proof (get_prop data "object" Nd) as Hobj. fold object in Hobj.
    destruct Known as [-> | ->].
    - resolve_reads Hty Hdata Hobj No. convert P. rewrite Hc.
      cbv beta iota delta [call_toUpperCase]. do 2 eexists; reflexivity.
    - resolve_reads Hty Hdata Hobj No. convert P. rewrite Hc.
      cbv beta iota delta [call_toUpperCase].
      destruct (ToBoolean (prop object "next_payment_attempt")); cbv beta iota;
        do 2 eexists; reflexivity. }
  split; [split; [intros (s & b & F); exact (Forward _ F) | exact Backward]|].
  split.
  - intros (e & T).
    destruct (fields_printable type object) eqn:P; [left | now right].
    intros c Hc.
    destruct (Backward (conj (ex_intro _ c Hc) eq_refl)) as (s & b & F).
    congruence.
  - intros Hno.
    destruct (formatFailureEmail h event) as [c|e] eqn:F; [|now exists e].
    exfalso. destruct (Forward c eq_refl) as ((c0 & Hc) & P).
    destruct Hno as [Hno | Hno]; [exact (Hno c0 Hc) | congruence].
Qed.

Lemma render_succeeds_iff_witness :
  (exists e,
     formatFailureEmail Sample.host Sample.charge_customer_without_text = Throw e)
  /\ exists subject body,
       formatFailureEmail Sample.host Sample.charge_failed
       = Ret (mkContent (VStr subject) (VStr body)).
Proof.
  split.
  - apply (proj2 (render_succeeds_iff Sample.host
                    Sample.charge_customer_without_text
                    "charge.failed" eq_refl (or_introl eq_refl))).
    right. reflexivity.
  - apply (proj1 (render_succeeds_iff Sample.host Sample.charge_failed
                    "charge.failed" eq_refl (or_introl eq_refl))).
    split; [now exists "usd" | reflexivity].
Defined.

(** X14.  What the rendering depends on.  Two events of the same monitored
    type whose [data.object] agree on the properties the renderer reads
    (seven of a charge, eight of an invoice) are rendered alike, subject,
    body or error: whatever else the payloads carry has no effect. *)
Theorem render_depends_on_fields_read
  (h : Host) (event1 event2 data1 data2 object1 object2 : value) (type : string) :
  type = "charge.failed" \/ type = "invoice.payment_failed" ->
  get event1 "type" = Ret (VStr type) ->
  get event2 "type" = Ret (VStr type) ->
  get event1 "data" = Ret data1 ->
  get event2 "data" = Ret data2 ->
  get data1 "object" = Ret object1 ->
  get data2 "object" = Ret object2 ->
  nullish object1 = false ->
  nullish object2 = false ->
  (forall k, In k (fields_read type) -> prop object1 k = prop object2 k) ->
  formatFailureEmail h event1 = formatFailureEmail h event2.
Proof.
  intros Known T1 T2 D1 D2 O1 O2 N1 N2 Same.
  destruct Known as [-> | ->].
  - assert (S : forall k, In k [ "customer"; "amount"; "currency"; "failure_code";
                                 "failure_message"; "id"; "created" ]
                          -> prop object1 k = prop object2 k) by exact Same.
    clear Same. cbn [In] in S.
    resolve_reads T1 D1 O1 N1.
    symmetry. resolve_reads T2 D2 O2 N2. symmetry.
    rewrite !(S "customer"), !(S "amount"), !(S "currency"),
      !(S "failure_code"), !(S "failure_message"), !(S "id"), !(S "created")
      by tauto.
    reflexivity.
  - assert (S : forall k, In k [ "customer"; "amount_due"; "currency"; "number";
                                 "subscription"; "attempt_count";
                                 "next_payment_attempt"; "id" ]
                          -> prop object1 k = prop object2 k) by exact Same.
    clear Same. cbn [In] in S.
    resolve_reads T1 D1 O1 N1.
    symmetry. resolve_reads T2 D2 O2 N2. symmetry.
    rewrite !(S "customer"), !(S "amount_due"), !(S "currency"), !(S "number"),
      !(S "subscription"), !(S "attempt_count"), !(S "next_payment_attempt"),
      !(S "id") by tauto.
    reflexivity.
Qed.

Lemma render_depends_on_fields_read_witness :
  formatFailureEmail Sample.host Sample.charge_failed
  = formatFailureEmail Sample.host
      (Sample.event "charge.failed"
         [ ("object", VStr "charge"); ("livemode", VBool false);
           ("amount", VNum 2599); ("currency", VStr "usd"); ("id", VStr "ch_1");
           ("created", VNum 1700000000); ("customer", VStr "cus_1");
           ("metadata", VObj []) ]).
Proof.
  apply (render_depends_on_fields_read Sample.host
           Sample.charge_failed
           (Sample.event "charge.failed"
              [ ("object", VStr "charge"); ("livemode", VBool false);
                ("amount", VNum 2599); ("currency", VStr "usd");
                ("id", VStr "ch_1"); ("created", VNum 1700000000);
                ("customer", VStr "cus_1"); ("metadata", VObj []) ])
           (prop Sample.charge_failed "data")
           (VObj [("object",
                   VObj [ ("object", VStr "charge"); ("livemode", VBool false);
                          ("amount", VNum 2599); ("currency", VStr "usd");
                          ("id", VStr "ch_1"); ("created", VNum 1700000000);
                          ("customer", VStr "cus_1"); ("metadata", VObj []) ])])
           (prop (prop Sample.charge_failed "data") "object")
           (VObj [ ("object", VStr "charge"); ("livemode", VBool false);
                   ("amount", VNum 2599); ("currency", VStr "usd");
                   ("id", VStr "ch_1"); ("created", VNum 1700000000);
                   ("customer", VStr "cus_1"); ("metadata", VObj []) ])
           "charge.failed" (or_introl eq_refl)
           eq_refl eq_refl eq_refl eq_refl eq_refl eq_refl eq_refl eq_refl).
  intros k H. cbn in H.
  repeat (destruct H as [<- | H]; [reflexivity|]). contradiction.
Defined.

(** X15.  The identifier of a charge.  The body of every rendered
    [charge.failed] event (one whose [data.object] has a string [currency]
    and whose fields read by the renderer have a string and a number) shows
    the text of [data.object.id] twice, on the Charge ID line and as the
    last segment of the link to the payment page of the dashboard; the two
    always agree, and for an [id] that is a string they are that string. *)
Theorem charge_link_from_id
  (h : Host) (event data charge : value) (currency : string) :
  get event "type" = Ret (VStr "charge.failed") ->
  get event "data" = Ret data ->
  get data "object" = Ret charge ->
  prop charge "currency" = VStr currency ->
  fields_printable "charge.failed" charge = true ->
  exists subject body id,
    formatFailureEmail h event = Ret (mkContent (VStr subject) (VStr body))
    /\ ToString h (prop charge "id") = Ret id
    /\ (forall s, prop charge "id" = VStr s -> id = s)
    /\ contains body ("<p><strong>Charge ID:</strong> " ++ id ++ "</p>")
    /\ contains body
         ("<a href=" ++ dq ++ "https://dashboard.stripe.com/payments/" ++ id
          ++ dq ++ ">Open Charge</a>").
Proof.
  intros Hty Hdata Hobj Hc P.
  pose proof (prop_string_nonnullish _ _ _ Hc) as N.
  resolve_reads Hty Hdata Hobj N. convert P.
  rewrite Hc. cbv beta iota delta [call_toUpperCase].
  do 3 eexists. split; [reflexivity|]. split; [reflexivity|].
  split; [intros s ->; reflexivity|]. split.
  - line 6. exists "      ", EmptyString. now rewrite append_nil_r.
  - line 10.
    exists "      <p><small>View in Stripe Dashboard: ", "</small></p>".
    rewrite !append_assoc. reflexivity.
Qed.

Lemma charge_link_from_id_witness :
  exists subject body,
    formatFailureEmail Sample.host Sample.charge_failed
    = Ret (mkContent (VStr subject) (VStr body))
    /\ contains body "<p><strong>Charge ID:</strong> ch_1</p>"
    /\ contains body
         ("<a href=" ++ dq ++ "https://dashboard.stripe.com/payments/ch_1"
          ++ dq ++ ">Open Charge</a>").
Proof.
  destruct (charge_link_from_id Sample.host Sample.charge_failed
              (prop Sample.charge_failed "data")
              (prop (prop Sample.charge_failed "data") "object")
              "usd" eq_refl eq_refl eq_refl eq_refl eq_refl)
    as (subject & body & id & F & T & _ & A & B).
  injection T as <-.
  exists subject, body. auto.
Defined.

(** ** The encoding of the message (line 41) *)

Section Base64Facts.

Local Open Scope N_scope.

(** Induction on a string three characters at a time. *)
Lemma string_ind3 (P : string -> Prop) :
  P EmptyString ->
  (forall a, P (String a EmptyString)) ->
  (forall a b, P (String a (String b EmptyString))) ->
  (forall a b c rest, P rest -> P (String a (String b (String c rest)))) ->
  forall s, P s.
Proof.
  intros P0 P1 P2 P3 s.
  assert (H : P s /\ (forall a, P (String a s))
              /\ (forall a b, P (String a (String b s)))).
  { induction s as [|c s (IH0 & IH1 & IH2)].
    - repeat split; auto.
    - split; [apply IH1|]. split; [intros a; apply IH2|].
      intros a b. apply P3, IH0. }
  apply H.
Qed.

(** The 64 digits, checked one by one: each has its own value back and
    none is the padding character. *)
Lemma url_digits_checked :
  forallb (fun n => match url_value (url_digit n) with
                    | Some v => N.eqb v n
                    | None => false
                    end
                    && negb (Ascii.eqb (url_digit n) "="%char))
          (map N.of_nat (seq 0 64))
  = true.
Proof. vm_compute. reflexivity. Qed.

Lemma url_digit_checked (n : N) :
  n < 64 ->
  url_value (url_digit n) = Some n /\ url_digit n <> "="%char.
Proof.
  intros H.
  pose proof (proj1 (forallb_forall _ _) url_digits_checked n) as C.
  cbv beta in C.
  assert (I : In n (map N.of_nat (seq 0 64))).
  { apply in_map_iff. exists (N.to_nat n). split; [apply N2Nat.id|].
    apply in_seq. lia. }
  apply C, andb_true_iff in I as [V E].
  split.
  - destruct (url_value (url_digit n)) as [v|]; [|discriminate].
    apply N.eqb_eq in V. now subst.
  - intros Eq. rewrite Eq in E. discriminate E.
Qed.

Lemma strip_cons (c : ascii) (s : string) :
  c <> "="%char ->
  Str.strip_trailing_eq (String c s) = String c (Str.strip_trailing_eq s).
Proof.
  intros H. cbn [Str.strip_trailing_eq].
  destruct (Str.strip_trailing_eq s); [|reflexivity].
  destruct (Ascii.eqb c "="%char) eqn:E; [|reflexivity].
  apply Ascii.eqb_eq in E. contradiction.
Qed.

Lemma replaced_digit (n : N) (s : string) :
  Str.replace_char "/" "_" (Str.replace_char "+" "-" (String (Base64.digit n) s))
  = String (url_digit n)
      (Str.replace_char "/" "_" (Str.replace_char "+" "-" s)).
Proof. reflexivity. Qed.

Lemma quotient_digits (x y z : N) :
  x < 256 -> y < 256 -> z < 256 ->
  let n := x * 65536 + y * 256 + z in
  n / 262144 < 64 /\ (n / 4096) mod 64 < 64
  /\ (n / 64) mod 64 < 64 /\ n mod 64 < 64.
Proof.
  intros. cbv zeta.
  repeat split; zify; Z.to_euclidean_division_equations; lia.
Qed.

Lemma digits_recompose (x y z : N) :
  x < 256 -> y < 256 -> z < 256 ->
  let n := x * 65536 + y * 256 + z in
  let m := (n / 262144) * 262144 + ((n / 4096) mod 64) * 4096
           + ((n / 64) mod 64) * 64 + n mod 64 in
  (m / 65536) mod 256 = x /\ (m / 256) mod 256 = y /\ m mod 256 = z.
Proof.
  intros. cbv zeta.
  repeat split; zify; Z.to_euclidean_division_equations; lia.
Qed.

Lemma digits_recompose2 (x y : N) :
  x < 256 -> y < 256 ->
  let n := x * 65536 + y * 256 in
  let m := (n / 262144) * 262144 + ((n / 4096) mod 64) * 4096
           + ((n / 64) mod 64) * 64 in
  (m / 65536) mod 256 = x /\ (m / 256) mod 256 = y.
Proof.
  intros. cbv zeta.
  repeat split; zify; Z.to_euclidean_division_equations; lia.
Qed.

Lemma digits_recompose1 (x : N) :
  x < 256 ->
  let n := x * 65536 in
  let m := (n / 262144) * 262144 + ((n / 4096) mod 64) * 4096 in
  (m / 65536) mod 256 = x.
Proof.
  intros. cbv zeta. zify; Z.to_euclidean_division_equations; lia.
Qed.

(** Line 41 computes [encode_url]: the two replacements turn each digit
    into its URL-safe form and the last one removes exactly the padding. *)
Lemma encoded_is_encode_url (s : string) :
  Str.strip_trailing_eq
    (Str.replace_char "/" "_" (Str.replace_char "+" "-" (Base64.encode s)))
  = encode_url s.
Proof.
  induction s as [|a|a b|a b c rest IH] using string_ind3.
  - reflexivity.
  - pose proof (N_ascii_bounded a) as Ha.
    destruct (quotient_digits (N_of_ascii a) 0 0 Ha) as (Q0 & Q1 & _); try lia.
    rewrite !N.add_0_r, ?N.mul_0_l, ?N.add_0_r in *.
    cbn [Base64.encode encode_url]. cbv zeta.
    rewrite !replaced_digit.
    rewrite !strip_cons by (apply url_digit_checked; assumption).
    reflexivity.
  - pose proof (N_ascii_bounded a) as Ha. pose proof (N_ascii_bounded b) as Hb.
    destruct (quotient_digits (N_of_ascii a) (N_of_ascii b) 0 Ha Hb)
      as (Q0 & Q1 & Q2 & _); try lia.
    rewrite !N.add_0_r in *.
    cbn [Base64.encode encode_url]. cbv zeta.
    rewrite !replaced_digit.
    rewrite !strip_cons by (apply url_digit_checked; assumption).
    reflexivity.
  - pose proof (N_ascii_bounded a) as Ha. pose proof (N_ascii_bounded b) as Hb.
    pose proof (N_ascii_bounded c) as Hc.
    destruct (quotient_digits (N_of_ascii a) (N_of_ascii b) (N_of_ascii c)
                Ha Hb Hc) as (Q0 & Q1 & Q2 & Q3).
    cbn [Base64.encode encode_url]. cbv zeta.
    rewrite !replaced_digit.
    rewrite !strip_cons by (apply url_digit_checked; assumption).
    now rewrite IH.
Qed.

Lemma byte_of_N_of_ascii (m : N) (a : ascii) :
  m mod 256 = N_of_ascii a -> byte_of m = a.
Proof. unfold byte_of. intros ->. apply ascii_N_embedding. Qed.

Lemma decode_encode_url (s : string) : decode_url (encode_url s) = Some s.
Proof.
  induction s as [|a|a b|a b c rest IH] using string_ind3.
  - reflexivity.
  - pose proof (N_ascii_bounded a) as Ha.
    destruct (quotient_digits (N_of_ascii a) 0 0 Ha) as (Q0 & Q1 & _); try lia.
    pose proof (digits_recompose1 (N_of_ascii a) Ha) as R. cbv zeta in R.
    rewrite !N.add_0_r, ?N.mul_0_l, ?N.add_0_r in *.
    cbn [encode_url decode_url]. cbv zeta.
    rewrite (proj1 (url_digit_checked _ Q0)), (proj1 (url_digit_checked _ Q1)).
    now rewrite (byte_of_N_of_ascii _ a R).
  - pose proof (N_ascii_bounded a) as Ha. pose proof (N_ascii_bounded b) as Hb.
    destruct (quotient_digits (N_of_ascii a) (N_of_ascii b) 0 Ha Hb)
      as (Q0 & Q1 & Q2 & _); try lia.
    destruct (digits_recompose2 (N_of_ascii a) (N_of_ascii b) Ha Hb) as (Ra & Rb).
    rewrite !N.add_0_r in *.
    cbn [encode_url decode_url]. cbv zeta.
    rewrite (proj1 (url_digit_checked _ Q0)), (proj1 (url_digit_checked _ Q1)),
      (proj1 (url_digit_checked _ Q2)).
    now rewrite (byte_of_N_of_ascii _ a Ra), (byte_of_N_of_ascii _ b Rb).
  - pose proof (N_ascii_bounded a) as Ha. pose proof (N_ascii_bounded b) as Hb.
    pose proof (N_ascii_bounded c) as Hc.
    destruct (quotient_digits (N_of_ascii a) (N_of_ascii b) (N_of_ascii c)
                Ha Hb Hc) as (Q0 & Q1 & Q2 & Q3).
    destruct (digits_recompose (N_of_ascii a) (N_of_ascii b) (N_of_ascii c)
                Ha Hb Hc) as (Ra & Rb & Rc).
    cbn [encode_url decode_url]. cbv zeta.
    rewrite (proj1 (url_digit_checked _ Q0)), (proj1 (url_digit_checked _ Q1)),
      (proj1 (url_digit_checked _ Q2)), (proj1 (url_digit_checked _ Q3)), IH.
    now rewrite (byte_of_N_of_ascii _ a Ra), (byte_of_N_of_ascii _ b Rb),
      (byte_of_N_of_ascii _ c Rc).
Qed.

Lemma all_url_safe_encode_url (s : string) : all_url_safe (encode_url s) = true.
Proof.
  induction s as [|a|a b|a b c rest IH] using string_ind3.
  - reflexivity.
  - pose proof (N_ascii_bounded a) as Ha.
    destruct (quotient_digits (N_of_ascii a) 0 0 Ha) as (Q0 & Q1 & _); try lia.
    rewrite !N.add_0_r, ?N.mul_0_l, ?N.add_0_r in *.
    cbn [encode_url all_url_safe]. cbv zeta.
    now rewrite (proj1 (url_digit_checked _ Q0)), (proj1 (url_digit_checked _ Q1)).
  - pose proof (N_ascii_bounded a) as Ha. pose proof (N_ascii_bounded b) as Hb.
    destruct (quotient_digits (N_of_ascii a) (N_of_ascii b) 0 Ha Hb)
      as (Q0 & Q1 & Q2 & _); try lia.
    rewrite !N.add_0_r in *.
    cbn [encode_url all_url_safe]. cbv zeta.
    now rewrite (proj1 (url_digit_checked _ Q0)), (proj1 (url_digit_checked _ Q1)),
      (proj1 (url_digit_checked _ Q2)).
  - pose proof (N_ascii_bounded a) as Ha. pose proof (N_ascii_bounded b) as Hb.
    pose proof (N_ascii_bounded c) as Hc.
    destruct (quotient_digits (N_of_ascii a) (N_of_ascii b) (N_of_ascii c)
                Ha Hb Hc) as (Q0 & Q1 & Q2 & Q3).
    cbn [encode_url all_url_safe]. cbv zeta.
    now rewrite (proj1 (url_digit_checked _ Q0)), (proj1 (url_digit_checked _ Q1)),
      (proj1 (url_digit_checked _ Q2)), (proj1 (url_digit_checked _ Q3)), IH.
Qed.

End Base64Facts.

Lemma encodedMessage_is_encode_url (message : string) :
  encodedMessage message = encode_url message.
Proof. unfold encodedMessage. apply encoded_is_encode_url. Qed.

(** X16.  The encoding of line 41 loses nothing.  Decoding the [raw]
    payload as unpadded URL-safe base64 gives back the message, byte for
    byte, whatever the message; so two payloads are equal only when the
    messages are.  This holds of the payload of every notification
    [sendEmail] hands to the API. *)
Theorem encoded_message_round_trip (message : string) :
  decode_url (encodedMessage message) = Some message
  /\ (forall message',
        encodedMessage message = encodedMessage message' -> message = message')
  /\ (forall h c raw,
        payload h c = Ret raw ->
        exists sent_message,
          email_message h (subject c) (body c) = Ret sent_message
          /\ decode_url raw = Some sent_message).
Proof.
  assert (D : forall m, decode_url (encodedMessage m) = Some m).
  { intros m. rewrite encodedMessage_is_encode_url. apply decode_encode_url. }
  split; [apply D|]. split.
  - intros message' E. apply (f_equal decode_url) in E.
    rewrite !D in E. now injection E.
  - intros h c raw R. destruct (payload_Ret h c raw R) as (m & E & ->).
    exists m. split; [exact E | apply D].
Qed.

Lemma all_url_safe_excludes (s : string) (c : ascii) :
  all_url_safe s = true -> url_value c = None ->
  isInfix (String c EmptyString) s = false.
Proof.
  intros A V. induction s as [|d s IH]; [reflexivity|].
  cbn [all_url_safe] in A. apply andb_true_iff in A as [Hd Hs].
  cbn [isInfix String.prefix].
  destruct (Ascii.ascii_dec c d) as [->|_].
  - rewrite V in Hd. discriminate Hd.
  - cbn [orb]. apply IH, Hs.
Qed.

(** X17.  The payload is URL-safe.  Every character of the [raw] payload
    is a letter, a digit, a hyphen or an underscore: it never contains a
    plus sign, a slash or an equal sign, whatever the message. *)
Theorem encoded_message_url_safe (message : string) :
  let raw := encodedMessage message in
  all_url_safe raw = true
  /\ isInfix "+" raw = false
  /\ isInfix "/" raw = false
  /\ isInfix "=" raw = false.
Proof.
  cbv zeta.
  assert (A : all_url_safe (encodedMessage message) = true).
  { rewrite encodedMessage_is_encode_url. apply all_url_safe_encode_url. }
  split; [exact A|].
  repeat split; apply all_url_safe_excludes; auto.
Qed.

(** ** What GET / advertises *)

(** X18.  The service description tells the truth.  The event types
    listed under [monitoring] are exactly the types the webhook handler
    does not ignore, and the address under [notification_email] is the one
    every message is addressed to and the one the success entry of the log
    names. *)
Theorem root_describes_the_service :
  exists types address,
    lookup "monitoring" (json root) = VArr (map VStr types)
    /\ (forall s, In s types <-> monitored (VStr s) = true)
    /\ lookup "notification_email" (json root) = VStr address
    /\ (forall h subject body message,
          email_message h subject body = Ret message ->
          String.prefix ("To: " ++ address ++ nl) message = true)
    /\ (forall h g subject body w message,
          email_message h subject body = Ret message ->
          messages_send g (List.length (sent w)) (encodedMessage message)
          = Accepts ->
          last (messages (fst (sendEmail h g subject body w))) EmptyString
          = "Email sent successfully to " ++ address).
Proof.
  exists ["charge.failed"; "invoice.payment_failed"], "blakeecom02@gmail.com".
  split; [reflexivity|]. split; [|split; [reflexivity|split]].
  - intros s. unfold monitored. cbn [strict_eq_string In]. split.
    + intros [<- | [<- | []]]; reflexivity.
    + intros H. apply orb_true_iff in H as [H | H];
        apply String.eqb_eq in H; auto.
  - intros h subject body message E.
    rewrite email_message_decided in E.
    destruct (printable subject && printable body); [|discriminate E].
    injection E as <-. reflexivity.
  - intros h g subject body w message E S.
    rewrite (sendEmail_ok h g subject body w message E S). cbn [fst].
    rewrite messages_record_send.
    apply (last_message_appends h w []).
Qed.

(** ** Repeated events *)

(** X19.  There is no deduplication.  When the same monitored event
    arrives twice in a row and renders, the handler calls the Gmail API
    once for each arrival, both times with the same payload, whatever the
    API did the first time. *)
Theorem repeated_event_sent_again
  (h : Host) (g : Gmail) (event : value) (c : NotificationContent) (w : World) :
  nullish event = false ->
  monitored (prop event "type") = true ->
  formatFailureEmail h event = Ret c ->
  let w1 := fst (handle h g event w) in
  let w2 := fst (handle h g event w1) in
  exists raw,
    payload h c = Ret raw
    /\ sent w2 = (sent w ++ [raw; raw])%list.
Proof.
  intros N K F w1 w2. subst w1 w2.
  destruct (rendered_has_payload h event c K F) as [raw R].
  exists raw. split; [exact R|].
  rewrite !(handle_sends_rendered h g event c raw _ N K F R).
  now rewrite <- app_assoc.
Qed.

Lemma repeated_event_sent_again_witness :
  exists raw,
    sent (fst (handle Sample.host (Sample.gmail_failing "quota exceeded")
                 Sample.charge_failed
                 (fst (handle Sample.host (Sample.gmail_failing "quota exceeded")
                         Sample.charge_failed empty_world))))
    = [raw; raw].
Proof.
  destruct (repeated_event_sent_again
              Sample.host (Sample.gmail_failing "quota exceeded")
              Sample.charge_failed
              (match formatFailureEmail Sample.host Sample.charge_failed with
               | Ret c => c
               | Throw _ => NotApplicable
               end)
              empty_world eq_refl eq_refl eq_refl) as (raw & _ & S).
  exists raw. exact S.
Defined.

(** ** Timestamps *)

(** X20.  What the log holds, timestamps included.  After a run of
    [addLog] calls from a log of at most 100 entries, the log is the last
    100 of its former entries followed by one entry per message, in order,
    the entry of the [i]-th message (from 0) stamped with reading number
    [dates w + 2 i] of the clock: the time of its own append. *)
Theorem log_entries_after_appends (h : Host) (w : World) (msgs : list string) :
  bounded w ->
  logs (appends h w msgs)
  = slice_last 100 (logs w ++ entries_from h (dates w) msgs).
Proof.
  revert w. induction msgs as [|m msgs IH]; intros w B.
  - cbn. now rewrite app_nil_r, slice_last_all.
  - rewrite appends_cons, IH by (apply addLog_bounded, B).
    rewrite addLog_run. cbn [fst logs dates entries_from].
    rewrite push_trim_slice by exact B.
    rewrite slice_last_app, <- app_assoc. reflexivity.
Qed.

Lemma log_entries_after_appends_witness :
  logs (appends Sample.host empty_world ["first"; "second"])
  = [ mkLogEntry "2023-11-14T22:13:20.000Z" "first";
      mkLogEntry "2023-11-14T22:13:20.500Z" "second" ].
Proof.
  rewrite (log_entries_after_appends Sample.host empty_world
             ["first"; "second"] (Nat.le_0_l 100)).
  reflexivity.
Defined.
